(** * mboxMinerva: [scripts/eval_before_after.py]

    A shallow embedding of the before/after perplexity evaluation script and
    the properties of its batching loop, text template, token-weighted
    aggregation and report arithmetic.

    Conventions of the embedding.
    - Python [int] is [Z]; Python [str] is [string]; a record produced by
      [json.loads] is a dictionary with string keys, [gmap string pyval].
    - Floating-point values are idealised: a finite float is a real number
      and the arithmetic of the loop is exact (no rounding is modelled). The
      bounded range of binary64 is modelled where a moderate input leaves it,
      at [np.exp], and the non-finite values that numpy returns instead of
      raising are separate constructors. The arithmetic of the specification's
      two numeric examples is also run on binary64 itself.
    - The tokenizer, the model and the file system are library collaborators;
      they are parameters of the development. *)

From Stdlib Require Import Reals Lra Lia ZArith List String Ascii.
From Stdlib Require Floats.
From stdpp Require Import base option list gmap strings pretty.

Open Scope Z_scope.

(** ** Python values and exceptions *)

(** The JSON scalars a field of a record can hold. Arrays, objects and
    non-integral numbers are outside the model: no property below concerns
    them. *)
Inductive pyval : Type :=
| PyNone
| PyBool (b : bool)
| PyInt (n : Z)
| PyStr (s : string).

Inductive exn : Type :=
| ValueError
| ZeroDivisionError.

Inductive result (A : Type) : Type :=
| Ok (a : A)
| Raise (e : exn).
Arguments Ok {A} a.
Arguments Raise {A} e.

Definition rbind {A B : Type} (r : result A) (k : A -> result B) : result B :=
  match r with
  | Ok a => k a
  | Raise e => Raise e
  end.

(** [str(v)], the conversion an f-string applies to a substituted value. *)
Definition py_str (v : pyval) : string :=
  match v with
  | PyNone => "None"
  | PyBool true => "True"
  | PyBool false => "False"
  | PyInt n => pretty n
  | PyStr s => s
  end.

(** [d.get(key, default)]. *)
Definition dict_get (d : gmap string pyval) (key : string) (default : pyval) : pyval :=
  match d !! key with
  | Some v => v
  | None => default
  end.

(** The line feed character. *)
Definition LF : string := String (ascii_of_nat 10) EmptyString.

(** ** Text template (line 43)

    [f"Subject: {d.get('subject', '')}\n\n{d.get('body', '')}"] *)
Definition render (d : gmap string pyval) : string :=
  "Subject: " +:+ py_str (dict_get d "subject" (PyStr ""))
    +:+ LF +:+ LF +:+ py_str (dict_get d "body" (PyStr "")).

(** ** Batching (lines 39-40)

    [for i in range(0, len(data), batch_size): batch = data[i:i+batch_size]] *)

(** The items of [range(start, stop, step)] for a positive step, produced the
    way the iterator does: emit [i] while [i < stop], then advance by [step].
    The fuel bounds the number of items; [py_range] supplies [stop - start],
    which suffices because a positive step is at least one. *)
Fixpoint range_up (fuel : nat) (i stop step : Z) : list Z :=
  match fuel with
  | O => []
  | S fuel' => if i <? stop then i :: range_up fuel' (i + step) stop step else []
  end.

(** The same for a negative step: emit [i] while [i > stop]. *)
Fixpoint range_down (fuel : nat) (i stop step : Z) : list Z :=
  match fuel with
  | O => []
  | S fuel' => if stop <? i then i :: range_down fuel' (i + step) stop step else []
  end.

(** [range(start, stop, step)]; a zero step raises [ValueError]. *)
Definition py_range (start stop step : Z) : result (list Z) :=
  if step =? 0 then Raise ValueError
  else if 0 <? step then Ok (range_up (Z.to_nat (stop - start)) start stop step)
  else Ok (range_down (Z.to_nat (start - stop)) start stop step).

(** Adjustment of one slice bound against a sequence of length [len]: a
    negative bound counts from the end, and every bound is clamped into
    [0 .. len]. *)
Definition adjust_index (len k : Z) : Z :=
  if k <? 0 then Z.max 0 (k + len) else Z.min k len.

(** [l[lo:hi]]. Slicing never raises. *)
Definition py_slice {A : Type} (l : list A) (lo hi : Z) : list A :=
  let len := Z.of_nat (length l) in
  let lo' := adjust_index len lo in
  let hi' := adjust_index len hi in
  take (Z.to_nat (hi' - lo')) (drop (Z.to_nat lo') l).

(** The batches the loop visits, in order. *)
Definition batches {A : Type} (data : list A) (batch_size : Z) : result (list (list A)) :=
  rbind (py_range 0 (Z.of_nat (length data)) batch_size)
        (fun starts => Ok (map (fun i => py_slice data i (i + batch_size)) starts)).

(** Ceiling of [n / d] for a positive [d]. *)
Definition ceil_div (n d : Z) : Z := (n + d - 1) / d.

(** ** Floating-point results

    [Finite x] is a finite float, idealised as the real [x]. The other
    constructors are the IEEE special values numpy produces without raising.
    The loop's accumulators are Python floats and stay finite reals; a value
    of this type appears where the script calls numpy. *)
Inductive npfloat : Type :=
| Finite (x : R)
| PosInf
| NegInf
| NaN.

(** Largest finite binary64 value, [(2 - 2^-52) * 2^1023]. *)
Definition float_max : R := ((2 - / 2 ^ 52) * 2 ^ 1023)%R.

(** [np.exp(x)]: numpy returns [inf] (and emits a [RuntimeWarning], which is
    not an exception) when the result exceeds the finite range. *)
Definition np_exp (x : R) : npfloat :=
  if Rle_dec (exp x) float_max then Finite (exp x) else PosInf.

Definition np_neg (a : npfloat) : npfloat :=
  match a with
  | Finite x => Finite (- x)
  | PosInf => NegInf
  | NegInf => PosInf
  | NaN => NaN
  end.

(** An infinity with the sign of [s * x]; [nan] when [x] is zero. [s] is
    [PosInf] or [NegInf]. *)
Definition signed_inf (s : npfloat) (x : R) : npfloat :=
  if Rlt_dec 0 x then s
  else if Rlt_dec x 0 then np_neg s
  else NaN.

(** [a - b] on [np.float64]. *)
Definition np_sub (a b : npfloat) : npfloat :=
  match a, b with
  | NaN, _ | _, NaN => NaN
  | Finite x, Finite y => Finite (x - y)
  | Finite _, PosInf => NegInf
  | Finite _, NegInf => PosInf
  | PosInf, PosInf => NaN
  | PosInf, _ => PosInf
  | NegInf, NegInf => NaN
  | NegInf, _ => NegInf
  end.

(** [a * b] on [np.float64]. *)
Definition np_mul (a b : npfloat) : npfloat :=
  match a, b with
  | NaN, _ | _, NaN => NaN
  | Finite x, Finite y => Finite (x * y)
  | Finite x, PosInf | PosInf, Finite x => signed_inf PosInf x
  | Finite x, NegInf | NegInf, Finite x => signed_inf NegInf x
  | PosInf, PosInf | NegInf, NegInf => PosInf
  | PosInf, NegInf | NegInf, PosInf => NegInf
  end.

(** [a / b] on [np.float64]: division by zero yields an infinity or [nan]
    instead of raising. The sign of a zero is not tracked. *)
Definition np_div (a b : npfloat) : npfloat :=
  match a, b with
  | NaN, _ | _, NaN => NaN
  | Finite x, Finite y =>
      if Req_dec_T y 0 then signed_inf PosInf x else Finite (x / y)
  | Finite _, (PosInf | NegInf) => Finite 0
  | PosInf, Finite y => if Rlt_dec y 0 then NegInf else PosInf
  | NegInf, Finite y => if Rlt_dec y 0 then PosInf else NegInf
  | (PosInf | NegInf), (PosInf | NegInf) => NaN
  end.

(** [a < b] on [np.float64]; every comparison with [nan] is false. *)
Definition np_ltb (a b : npfloat) : bool :=
  match a, b with
  | NaN, _ | _, NaN => false
  | Finite x, Finite y => if Rlt_dec x y then true else false
  | _, NegInf => false
  | NegInf, _ => true
  | PosInf, _ => false
  | Finite _, PosInf => true
  end.

(** ** Tokenizer output *)

(** The two tensors of a tokenizer call that the script reads, each a list of
    rows (one row per text of the batch). An attention mask entry is 1 at a
    token and 0 at a padding position. *)
Record BatchEncoding : Type := {
  input_ids : list (list Z);
  attention_mask : list (list Z)
}.

(** [t.sum().item()] on a two-dimensional integer tensor. *)
Definition tensor_sum (t : list (list Z)) : Z :=
  foldr Z.add 0 (concat t).

(** Number of positions of a batch that are a token and have a predecessor in
    their row, that is, the tokens that are a prediction target once the
    labels are shifted by one position for the causal language-modeling loss.
    This count follows the wording of the specification (one position per
    sequence receives no loss term); the script does not compute it. *)
Definition loss_term_tokens (mask : list (list Z)) : Z :=
  tensor_sum (map (fun row => tail row) mask).

(** Sum of the first mask entry of every row: the number of sequences whose
    first position is a token. *)
Definition leading_tokens (mask : list (list Z)) : Z :=
  foldr Z.add 0 (map (fun row => hd 0 row) mask).

(** ** Aggregation in closed form *)

(** [sum of loss_i * token_count_i] over a list of per-batch results. *)
Definition weighted_loss_sum (rs : list (R * Z)) : R :=
  foldr (fun r acc => (fst r * IZR (snd r) + acc)%R) 0%R rs.

(** [sum of token_count_i]. *)
Definition token_sum (rs : list (R * Z)) : Z :=
  foldr (fun r acc => snd r + acc) 0 rs.

(** Python true division of a float by an int. *)
Definition py_truediv (a : R) (b : Z) : result R :=
  if b =? 0 then Raise ZeroDivisionError else Ok (a / IZR b)%R.

(** Lines 62-63: the end of [compute_perplexity], after the loop. *)
Definition finalize (totals : R * Z) : result npfloat :=
  rbind (py_truediv (fst totals) (snd totals)) (fun avg_loss => Ok (np_exp avg_loss)).

(** ** The evaluation pass *)

Section Evaluation.

(** The tokenizer and the model are library objects. A tokenizer call with
    [padding=True, truncation=True, max_length=max_length] returns an
    encoding; the model's forward pass on an encoding (with the input ids as
    labels) returns the mean loss of the batch as a finite float. *)
Variables tokenizer_t model_t : Type.
Variable tokenizer_call : tokenizer_t -> list string -> Z -> BatchEncoding.
Variable model_loss : model_t -> BatchEncoding -> R.

(** Lines 43-57: what one batch contributes, [(loss, num_tokens)]. *)
Definition score_batch (model : model_t) (tokenizer : tokenizer_t)
    (max_length : Z) (batch : list (gmap string pyval)) : R * Z :=
  let texts := map render batch in
  let encodings := tokenizer_call tokenizer texts max_length in
  let loss := model_loss model encodings in
  let num_tokens := tensor_sum (attention_mask encodings) in
  (loss, num_tokens).

(** Lines 40-60: one iteration of the loop, at start index [i], on the
    running totals [(total_loss, total_tokens)]. *)
Definition loop_body (model : model_t) (tokenizer : tokenizer_t)
    (data : list (gmap string pyval)) (batch_size max_length : Z)
    (totals : R * Z) (i : Z) : R * Z :=
  let batch := py_slice data i (i + batch_size) in
  let '(loss, num_tokens) := score_batch model tokenizer max_length batch in
  ((fst totals + loss * IZR num_tokens)%R, snd totals + num_tokens).

(** [compute_perplexity(model, tokenizer, data, batch_size, max_length)]. *)
Definition compute_perplexity (model : model_t) (tokenizer : tokenizer_t)
    (data : list (gmap string pyval)) (batch_size max_length : Z) : result npfloat :=
  rbind (py_range 0 (Z.of_nat (length data)) batch_size) (fun starts =>
    finalize (fold_left (loop_body model tokenizer data batch_size max_length)
                        starts (0%R, 0))).

(** The per-batch results of a pass, in batch order. *)
Definition batch_scores (model : model_t) (tokenizer : tokenizer_t)
    (data : list (gmap string pyval)) (batch_size max_length : Z) : result (list (R * Z)) :=
  rbind (batches data batch_size) (fun bs =>
    Ok (map (score_batch model tokenizer max_length) bs)).

(** The encodings a pass feeds to its model, in batch order. *)
Definition batch_encodings (tokenizer : tokenizer_t)
    (data : list (gmap string pyval)) (batch_size max_length : Z)
    : result (list BatchEncoding) :=
  rbind (batches data batch_size) (fun bs =>
    Ok (map (fun b => tokenizer_call tokenizer (map render b) max_length) bs)).

(** *** The script's run ([main])

    The run is a sequence of library calls with effects outside the
    program: model objects come to life on the device, are deleted, and the
    allocator's cache is emptied. These effects are recorded as events; the
    history pairs each event with the device state it leaves. *)

(** The two variables of [main] that hold a model. *)
Inductive model_var : Type :=
| BaseModel
| FinetunedModel.

Definition model_var_eqb (u v : model_var) : bool :=
  match u, v with
  | BaseModel, BaseModel | FinetunedModel, FinetunedModel => true
  | _, _ => false
  end.

(** The lines [main] prints; the layout of the text is not modelled. *)
Inductive message : Type :=
| MsgLoading
| MsgLoaded (n : nat)
| MsgDevice (cuda : bool)
| MsgBanner (v : model_var)
| MsgPerplexity (v : model_var) (ppl : npfloat)
| MsgSummary (base_ppl finetuned_ppl improvement : npfloat)
| MsgVerdict (improved : bool).

Inductive event : Type :=
| EvPrint (m : message)
| EvLoadTokenizer (path : string)
| EvLoadModel (v : model_var) (path : string)
| EvEvaluate (v : model_var) (tokenizer : tokenizer_t)
    (data : list (gmap string pyval)) (batch_size max_length : Z)
| EvDel (v : model_var)
| EvEmptyCache.

(** [resident]: the model objects alive on the device. [cached]: the models
    whose memory blocks, freed by deletion, the CUDA caching allocator still
    holds. *)
Record device_state : Type := {
  resident : list model_var;
  cached : list model_var
}.

Definition device_step (cuda : bool) (e : event) (d : device_state) : device_state :=
  match e with
  | EvLoadModel v _ =>
      {| resident := resident d ++ [v]; cached := cached d |}
  | EvDel v =>
      {| resident := List.filter (fun u => negb (model_var_eqb u v)) (resident d);
         cached := if cuda then cached d ++ [v] else cached d |}
  | EvEmptyCache =>
      {| resident := resident d; cached := [] |}
  | _ => d
  end.

Record world : Type := {
  device : device_state;
  history : list (event * device_state)
}.

(** Computations of the run: a state over [world] that may raise. The world
    reached when an exception is raised is kept. *)
Definition run (A : Type) : Type := world -> result A * world.

Global Instance run_ret : MRet run := fun A a w => (Ok a, w).
Global Instance run_bind : MBind run := fun A B k m w =>
  match m w with
  | (Ok a, w') => k a w'
  | (Raise e, w') => (Raise e, w')
  end.

Definition lift {A : Type} (r : result A) : run A := fun w => (r, w).

Record Args : Type := {
  arg_base_model : string;
  arg_finetuned_model : string;
  arg_test_data : string;
  arg_batch_size : Z;
  arg_max_length : Z
}.

(** Library and operating-system collaborators of [main]:
    [AutoTokenizer.from_pretrained], [AutoModelForCausalLM.from_pretrained]
    followed by [.to(device)], [load_test_data] on a readable JSONL file of
    records, and [torch.cuda.is_available()]. *)
Variable tokenizer_from_pretrained : string -> tokenizer_t.
Variable model_from_pretrained : string -> model_t.
Variable load_test_data : string -> list (gmap string pyval).
Variable cuda_is_available : bool.

Definition emit (e : event) : run unit := fun w =>
  let d := device_step cuda_is_available e (device w) in
  (Ok tt, {| device := d; history := history w ++ [(e, d)] |}).

(** Line 100. The literal [100] is converted to a float. *)
Definition improvement_percent (base_ppl finetuned_ppl : npfloat) : npfloat :=
  np_mul (np_div (np_sub base_ppl finetuned_ppl) base_ppl) (Finite 100).

(** Lines 76-112. *)
Definition main (args : Args) : run unit :=
  emit (EvPrint MsgLoading) ;;
  let test_data := load_test_data (arg_test_data args) in
  emit (EvPrint (MsgLoaded (length test_data))) ;;
  emit (EvPrint (MsgDevice cuda_is_available)) ;;
  emit (EvPrint (MsgBanner BaseModel)) ;;
  emit (EvLoadTokenizer (arg_base_model args)) ;;
  let tokenizer := tokenizer_from_pretrained (arg_base_model args) in
  emit (EvLoadModel BaseModel (arg_base_model args)) ;;
  let base_model := model_from_pretrained (arg_base_model args) in
  emit (EvEvaluate BaseModel tokenizer test_data
          (arg_batch_size args) (arg_max_length args)) ;;
  base_ppl ← lift (compute_perplexity base_model tokenizer test_data
                     (arg_batch_size args) (arg_max_length args)) ;
  emit (EvPrint (MsgPerplexity BaseModel base_ppl)) ;;
  emit (EvDel BaseModel) ;;
  emit EvEmptyCache ;;
  emit (EvPrint (MsgBanner FinetunedModel)) ;;
  emit (EvLoadModel FinetunedModel (arg_finetuned_model args)) ;;
  let finetuned_model := model_from_pretrained (arg_finetuned_model args) in
  emit (EvEvaluate FinetunedModel tokenizer test_data
          (arg_batch_size args) (arg_max_length args)) ;;
  finetuned_ppl ← lift (compute_perplexity finetuned_model tokenizer test_data
                          (arg_batch_size args) (arg_max_length args)) ;
  emit (EvPrint (MsgPerplexity FinetunedModel finetuned_ppl)) ;;
  let improvement := improvement_percent base_ppl finetuned_ppl in
  emit (EvPrint (MsgSummary base_ppl finetuned_ppl improvement)) ;;
  emit (EvPrint (MsgVerdict (np_ltb finetuned_ppl base_ppl))).

Definition empty_device : device_state :=
  {| resident := []; cached := [] |}.

Definition initial_world : world :=
  {| device := empty_device; history := [] |}.

(** The history a sequence of events leaves, starting from device state [d]. *)
Fixpoint trace_from (d : device_state) (es : list event)
    : list (event * device_state) :=
  match es with
  | [] => []
  | e :: es' =>
      let d' := device_step cuda_is_available e d in
      (e, d') :: trace_from d' es'
  end.

(** The events of a run, in three stretches: up to the call of the base
    pass, from its return [base_ppl] up to the call of the fine-tuned pass,
    and from its return [finetuned_ppl] to the end. *)
Definition events_to_base_pass (args : Args) : list event :=
  let test_data := load_test_data (arg_test_data args) in
  [ EvPrint MsgLoading;
    EvPrint (MsgLoaded (length test_data));
    EvPrint (MsgDevice cuda_is_available);
    EvPrint (MsgBanner BaseModel);
    EvLoadTokenizer (arg_base_model args);
    EvLoadModel BaseModel (arg_base_model args);
    EvEvaluate BaseModel (tokenizer_from_pretrained (arg_base_model args))
      test_data (arg_batch_size args) (arg_max_length args) ].

Definition events_to_finetuned_pass (args : Args) (base_ppl : npfloat) : list event :=
  let test_data := load_test_data (arg_test_data args) in
  [ EvPrint (MsgPerplexity BaseModel base_ppl);
    EvDel BaseModel;
    EvEmptyCache;
    EvPrint (MsgBanner FinetunedModel);
    EvLoadModel FinetunedModel (arg_finetuned_model args);
    EvEvaluate FinetunedModel (tokenizer_from_pretrained (arg_base_model args))
      test_data (arg_batch_size args) (arg_max_length args) ].

Definition events_to_end (base_ppl finetuned_ppl : npfloat) : list event :=
  [ EvPrint (MsgPerplexity FinetunedModel finetuned_ppl);
    EvPrint (MsgSummary base_ppl finetuned_ppl
               (improvement_percent base_ppl finetuned_ppl));
    EvPrint (MsgVerdict (np_ltb finetuned_ppl base_ppl)) ].

End Evaluation.

(** ** A stand-in scorer

    A small concrete tokenizer and model, used to run the definitions on
    examples. The tokenizer makes one token of every character that is not
    white space, truncates a text to [max_length] tokens and pads the rows
    of a batch on the right to the longest row. A model is the function that
    gives its mean loss on an encoding. *)

Definition is_space (c : ascii) : bool :=
  bool_decide (c = " "%char) || bool_decide (c = ascii_of_nat 10).

Definition char_tokens (max_length : Z) (text : string) : list Z :=
  take (Z.to_nat max_length)
       (map (fun c => Z.of_nat (nat_of_ascii c))
            (filter (fun c => is_space c = false) (list_ascii_of_string text))).

Definition pad_right (width : nat) (fill : Z) (row : list Z) : list Z :=
  row ++ replicate (width - length row) fill.

Definition char_tokenizer_call (_ : unit) (texts : list string) (max_length : Z)
    : BatchEncoding :=
  let rows := map (char_tokens max_length) texts in
  let width := max_list (map length rows) in
  {| input_ids := map (pad_right width 0) rows;
     attention_mask := map (fun row => pad_right width 0 (replicate (length row) 1)) rows |}.

Definition stub_model : Type := BatchEncoding -> R.

Definition stub_model_loss (m : stub_model) (enc : BatchEncoding) : R := m enc.

(** A record with the given subject and body. *)
Definition email (subject body : string) : gmap string pyval :=
  <["subject" := PyStr subject]> (<["body" := PyStr body]> ∅).

(** ** The loop's arithmetic on binary64

    The same accumulation as [loop_body] and the division of line 62, on
    primitive binary64 floats, for checking that the idealised arithmetic is
    exact on given per-batch results. A token count is converted to a float
    as Python converts an [int] operand. *)

Definition binary64_of_int (n : Z) : PrimFloat.float :=
  PrimFloat.of_uint63 (Uint63.of_Z n).

Definition binary64_totals (rs : list (PrimFloat.float * Z)) : PrimFloat.float * Z :=
  fold_left
    (fun totals r =>
       (PrimFloat.add (fst totals) (PrimFloat.mul (fst r) (binary64_of_int (snd r))),
        snd totals + snd r))
    rs (binary64_of_int 0, 0).

Definition binary64_avg_loss (rs : list (PrimFloat.float * Z)) : PrimFloat.float :=
  PrimFloat.div (fst (binary64_totals rs)) (binary64_of_int (snd (binary64_totals rs))).

(** Command-line arguments for runs of the stand-in scorer. *)
Definition stub_args : Args :=
  {| arg_base_model := "base";
     arg_finetuned_model := "adapter";
     arg_test_data := "test.jsonl";
     arg_batch_size := 8;
     arg_max_length := 512 |}.

(** Two records of 10 and 30 tokens under the stand-in tokenizer, and a model
    that reports a mean loss of 2.0 on a batch of 10 tokens and 4.0 on any
    other batch. *)
Definition two_emails : list (gmap string pyval) :=
  [email "hi" ""; email "hi" "0123456789 0123456789"].

Definition two_loss_model : stub_model :=
  fun enc => if tensor_sum (attention_mask enc) =? 10 then 2%R else 4%R.

(** A model that reports the same mean loss on every batch. *)
Definition constant_model (loss : R) : stub_model := fun _ => loss.

(** * Properties *)

(** ** Text template *)

Lemma dict_get_present (d : gmap string pyval) (key : string) (v dflt : pyval) :
  d !! key = Some v -> dict_get d key dflt = v.
Proof. intros H. unfold dict_get. rewrite H. reflexivity. Qed.

Lemma dict_get_absent (d : gmap string pyval) (key : string) (dflt : pyval) :
  d !! key = None -> dict_get d key dflt = dflt.
Proof. intros H. unfold dict_get. rewrite H. reflexivity. Qed.

(** A field that is absent or holds a string is substituted as that string,
    the empty string when absent. *)
Lemma field_text (d : gmap string pyval) (key : string) (s : option string) :
  d !! key = PyStr <$> s ->
  py_str (dict_get d key (PyStr "")) = default "" s.
Proof.
  intros H. destruct s as [s|]; simpl in H.
  - rewrite (dict_get_present _ _ _ _ H). reflexivity.
  - rewrite (dict_get_absent _ _ _ H). reflexivity.
Qed.

(** The rendering reads nothing but the two fields. *)
Lemma render_two_fields (d d' : gmap string pyval) :
  d' !! "subject" = d !! "subject" ->
  d' !! "body" = d !! "body" ->
  render d' = render d.
Proof.
  intros Hs Hb. unfold render, dict_get. rewrite Hs, Hb. reflexivity.
Qed.

(** C5. For a record in which each of [subject] and [body] is either absent
    or bound to a string, the rendering is the text [Subject: ] followed by
    the subject, a line feed that ends the subject line, a second line feed
    (the blank line), and the body, a missing field contributing the empty
    string. [render] is a total function, so rendering cannot fail, and any
    record with the same two fields renders to the same string. *)
Theorem C5_render_template (d : gmap string pyval) (subject body : option string) :
  d !! "subject" = PyStr <$> subject ->
  d !! "body" = PyStr <$> body ->
  render d = "Subject: " +:+ default "" subject +:+ LF +:+ LF +:+ default "" body
  /\ (forall d' : gmap string pyval,
        d' !! "subject" = d !! "subject" -> d' !! "body" = d !! "body" ->
        render d' = render d).
Proof.
  intros Hs Hb. split.
  - unfold render. rewrite (field_text _ _ _ Hs), (field_text _ _ _ Hb). reflexivity.
  - intros d'. apply render_two_fields.
Qed.

Lemma C5_render_template_witness :
  render (<["body" := PyStr "see you"]> ∅) =
    "Subject: " +:+ "" +:+ LF +:+ LF +:+ "see you"
  /\ (forall d' : gmap string pyval,
        d' !! "subject" = (<["body" := PyStr "see you"]> ∅ : gmap string pyval) !! "subject" ->
        d' !! "body" = (<["body" := PyStr "see you"]> ∅ : gmap string pyval) !! "body" ->
        render d' = render (<["body" := PyStr "see you"]> ∅)).
Proof.
  apply (C5_render_template (<["body" := PyStr "see you"]> ∅) None (Some "see you"));
    vm_compute; reflexivity.
Defined.

(** C10. There are records whose [subject] (respectively [body]) key is
    present and bound to null, and they render with the literal text [None]
    in place of the field, whereas the same record without the key renders
    the field as empty text. *)
Theorem C10_null_field_renders_None :
  (exists d : gmap string pyval,
      d !! "subject" = Some PyNone
      /\ render d = "Subject: None" +:+ LF +:+ LF +:+ "text"
      /\ render (delete "subject" d) = "Subject: " +:+ LF +:+ LF +:+ "text")
  /\ (exists d : gmap string pyval,
      d !! "body" = Some PyNone
      /\ render d = "Subject: hello" +:+ LF +:+ LF +:+ "None"
      /\ render (delete "body" d) = "Subject: hello" +:+ LF +:+ LF).
Proof.
  split.
  - exists (<["subject" := PyNone]> (<["body" := PyStr "text"]> ∅)).
    repeat split; vm_compute; reflexivity.
  - exists (<["subject" := PyStr "hello"]> (<["body" := PyNone]> ∅)).
    repeat split; vm_compute; reflexivity.
Qed.

(** ** Batching *)

(** [ceil_div n d] is the least [k] with [n <= k * d]. *)
Lemma ceil_div_bounds (n d : Z) :
  0 < d -> (ceil_div n d - 1) * d < n <= ceil_div n d * d.
Proof.
  intros Hd. unfold ceil_div.
  pose proof (Z.div_mod (n + d - 1) d ltac:(lia)) as Hdm.
  pose proof (Z.mod_pos_bound (n + d - 1) d Hd) as Hm.
  nia.
Qed.

Lemma ceil_div_nonpos (n d : Z) : 0 < d -> n <= 0 -> ceil_div n d <= 0.
Proof.
  intros Hd Hn. pose proof (ceil_div_bounds n d Hd). nia.
Qed.

Lemma ceil_div_pos (n d : Z) : 0 < d -> 0 < n -> 0 < ceil_div n d.
Proof.
  intros Hd Hn. pose proof (ceil_div_bounds n d Hd). nia.
Qed.

Lemma ceil_div_step (n d : Z) : 0 < d -> ceil_div (n - d) d = ceil_div n d - 1.
Proof.
  intros Hd. unfold ceil_div.
  replace (n - d + d - 1) with (n + d - 1 + (-1) * d) by lia.
  rewrite Z.div_add by lia. lia.
Qed.

(** The loop indices in closed form: [i, i + step, i + 2 step, ...], as many
    as the ceiling of [(stop - i) / step]. The fuel [py_range] supplies is
    enough. *)
Lemma range_up_closed (step stop : Z) (fuel : nat) : forall i : Z,
  0 < step ->
  (Z.to_nat (stop - i) <= fuel)%nat ->
  range_up fuel i stop step =
    (fun k => i + k * step) <$> seqZ 0 (ceil_div (stop - i) step).
Proof.
  induction fuel as [|fuel IH]; intros i Hstep Hfuel; simpl.
  - rewrite seqZ_nil; [reflexivity|]. apply ceil_div_nonpos; lia.
  - destruct (Z.ltb_spec i stop) as [Hlt|Hge].
    + rewrite (seqZ_cons 0) by (apply ceil_div_pos; lia).
      rewrite fmap_cons. f_equal; [lia|].
      rewrite IH by lia.
      replace (stop - (i + step)) with (stop - i - step) by lia.
      rewrite ceil_div_step by lia.
      replace (Z.succ 0) with (1 + 0) by lia.
      rewrite <- fmap_add_seqZ, <- list_fmap_compose.
      apply list_fmap_ext. intros _ k _. simpl. lia.
    + rewrite seqZ_nil; [reflexivity|]. apply ceil_div_nonpos; lia.
Qed.

(** A slice with bounds [0 <= lo <= hi] holds the elements from [lo] up to
    [hi], or up to the end of the list when [hi] is past it. *)
Lemma py_slice_nonneg {A : Type} (l : list A) (lo hi : Z) :
  0 <= lo <= hi ->
  py_slice l lo hi = take (Z.to_nat (hi - lo)) (drop (Z.to_nat lo) l).
Proof.
  intros H. unfold py_slice, adjust_index.
  destruct (Z.ltb_spec lo 0); [lia|]. destruct (Z.ltb_spec hi 0); [lia|].
  destruct (Z_le_gt_dec hi (Z.of_nat (length l))).
  - destruct (Z_le_gt_dec lo (Z.of_nat (length l))).
    + rewrite !Z.min_l by lia. reflexivity.
    + lia.
  - rewrite (Z.min_r hi) by lia.
    destruct (Z_le_gt_dec lo (Z.of_nat (length l))).
    + rewrite Z.min_l by lia.
      rewrite !take_ge; [reflexivity| |]; rewrite length_drop; lia.
    + rewrite Z.min_r by lia.
      rewrite !drop_ge by lia. rewrite !take_nil. reflexivity.
Qed.

Lemma py_slice_length {A : Type} (l : list A) (lo hi : Z) :
  0 <= lo <= hi ->
  Z.of_nat (length (py_slice l lo hi)) =
    Z.min hi (Z.of_nat (length l)) - Z.min lo (Z.of_nat (length l)).
Proof.
  intros H. rewrite py_slice_nonneg by lia.
  rewrite length_take, length_drop. lia.
Qed.

(** The slices taken at the loop indices, concatenated, are the part of the
    list from the first index on. *)
Lemma concat_slices {A : Type} (data : list A) (batch_size : Z) (fuel : nat) :
  forall i : Z,
  0 < batch_size -> 0 <= i ->
  (Z.to_nat (Z.of_nat (length data) - i) <= fuel)%nat ->
  concat (map (fun j => py_slice data j (j + batch_size))
              (range_up fuel i (Z.of_nat (length data)) batch_size)) =
    drop (Z.to_nat i) data.
Proof.
  induction fuel as [|fuel IH]; intros i Hbs Hi Hfuel; simpl.
  - rewrite drop_ge by lia. reflexivity.
  - destruct (Z.ltb_spec i (Z.of_nat (length data))) as [Hlt|Hge]; simpl.
    + rewrite IH by lia. rewrite py_slice_nonneg by lia.
      replace (Z.to_nat (i + batch_size))
        with (Z.to_nat i + Z.to_nat (i + batch_size - i))%nat by lia.
      rewrite <- drop_drop. apply take_drop.
    + rewrite drop_ge by lia. reflexivity.
Qed.

Lemma batches_closed {A : Type} (data : list A) (batch_size : Z) :
  1 <= batch_size ->
  batches data batch_size =
    Ok ((fun k => py_slice data (k * batch_size) (k * batch_size + batch_size))
          <$> seqZ 0 (ceil_div (Z.of_nat (length data)) batch_size)).
Proof.
  intros Hbs. unfold batches, py_range.
  destruct (Z.eqb_spec batch_size 0); [lia|].
  destruct (Z.ltb_spec 0 batch_size); [|lia]. simpl.
  rewrite range_up_closed by lia. rewrite Z.sub_0_r.
  f_equal. rewrite <- list_fmap_compose. reflexivity.
Qed.

Lemma batches_concat {A : Type} (data : list A) (batch_size : Z) (bs : list (list A)) :
  1 <= batch_size ->
  batches data batch_size = Ok bs ->
  concat bs = data.
Proof.
  intros Hbs. unfold batches, py_range.
  destruct (Z.eqb_spec batch_size 0); [lia|].
  destruct (Z.ltb_spec 0 batch_size); [|lia]. simpl.
  intros [= <-]. rewrite concat_slices by lia. reflexivity.
Qed.

(** C2. For a batch size of at least one and a list of [N] records, the loop
    visits exactly [ceil (N / batch_size)] batches; every batch before the
    last has exactly [batch_size] records; the last has
    [N - batch_size * (ceil (N / batch_size) - 1)] records, which is between
    one and [batch_size]; the batches concatenated in order are the input
    list; and any other evaluation of the batching on the same input gives
    the same list of batches. *)
Theorem C2_batching_partition {A : Type} (data : list A) (batch_size : Z) :
  1 <= batch_size ->
  exists bs : list (list A),
    batches data batch_size = Ok bs
    /\ Z.of_nat (length bs) = ceil_div (Z.of_nat (length data)) batch_size
    /\ (forall (k : nat) (b : list A),
          bs !! k = Some b ->
          Z.of_nat k < ceil_div (Z.of_nat (length data)) batch_size - 1 ->
          Z.of_nat (length b) = batch_size)
    /\ (forall b : list A,
          last bs = Some b ->
          Z.of_nat (length b) =
            Z.of_nat (length data)
              - batch_size * (ceil_div (Z.of_nat (length data)) batch_size - 1)
          /\ 1 <= Z.of_nat (length b) <= batch_size)
    /\ concat bs = data
    /\ (forall bs' : list (list A), batches data batch_size = Ok bs' -> bs' = bs).
Proof.
  intros Hbs.
  pose proof (ceil_div_bounds (Z.of_nat (length data)) batch_size ltac:(lia)) as Hc.
  pose proof (batches_closed data batch_size Hbs) as Hclosed.
  remember (ceil_div (Z.of_nat (length data)) batch_size) as count eqn:Hcnt.
  assert (0 <= count) as Hcount by nia.
  eexists. split; [exact Hclosed|].
  assert (forall (k : nat) (b : list A),
             ((fun k => py_slice data (k * batch_size) (k * batch_size + batch_size))
                <$> seqZ 0 count) !! k = Some b ->
             Z.of_nat k < count
             /\ Z.of_nat (length b) =
                  Z.min (Z.of_nat k * batch_size + batch_size) (Z.of_nat (length data))
                  - Z.of_nat k * batch_size) as Hlook.
  { intros k b Hk. rewrite list_lookup_fmap in Hk.
    destruct (seqZ 0 count !! k) as [j|] eqn:Hj; [|discriminate].
    apply lookup_seqZ in Hj as [-> Hlt]. simpl in Hk. injection Hk as <-.
    split; [assumption|].
    rewrite py_slice_length by nia. nia. }
  split; [|split; [|split; [|split]]].
  - rewrite length_fmap, length_seqZ. lia.
  - intros k b Hk Hlt. apply Hlook in Hk as [_ ->]. nia.
  - intros b Hlast. rewrite last_lookup, length_fmap, length_seqZ in Hlast.
    remember (Init.Nat.pred (Z.to_nat count)) as k eqn:Hk.
    apply Hlook in Hlast as [Hlt ->].
    assert (Z.of_nat k = count - 1) as -> by lia.
    nia.
  - apply (batches_concat data batch_size); assumption.
  - intros bs' Hbs'. rewrite Hclosed in Hbs'.
    injection Hbs' as <-. reflexivity.
Qed.

Lemma C2_batching_partition_witness :
  exists bs : list (list Z),
    batches [10; 20; 30; 40; 50] 2 = Ok bs
    /\ Z.of_nat (length bs) = ceil_div (Z.of_nat (length [10; 20; 30; 40; 50])) 2
    /\ (forall (k : nat) (b : list Z),
          bs !! k = Some b ->
          Z.of_nat k < ceil_div (Z.of_nat (length [10; 20; 30; 40; 50])) 2 - 1 ->
          Z.of_nat (length b) = 2)
    /\ (forall b : list Z,
          last bs = Some b ->
          Z.of_nat (length b) =
            Z.of_nat (length [10; 20; 30; 40; 50])
              - 2 * (ceil_div (Z.of_nat (length [10; 20; 30; 40; 50])) 2 - 1)
          /\ 1 <= Z.of_nat (length b) <= 2)
    /\ concat bs = [10; 20; 30; 40; 50]
    /\ (forall bs' : list (list Z), batches [10; 20; 30; 40; 50] 2 = Ok bs' -> bs' = bs).
Proof.
  apply (C2_batching_partition [10; 20; 30; 40; 50] 2). lia.
Defined.

Example batches_five_by_two :
  batches [10; 20; 30; 40; 50] 2 = Ok [[10; 20]; [30; 40]; [50]].
Proof. reflexivity. Qed.

Example batches_zero_size : batches [10; 20; 30] 0 = Raise ValueError.
Proof. reflexivity. Qed.

Example batches_negative_size : batches [10; 20; 30] (-2) = Ok [].
Proof. reflexivity. Qed.

(** ** Aggregation *)

Lemma exp_INR_lower (n : nat) : (2 ^ n <= exp (INR n))%R.
Proof.
  induction n as [|n IH].
  - simpl. rewrite exp_0. lra.
  - rewrite S_INR, exp_plus. change (2 ^ S n)%R with (2 * 2 ^ n)%R.
    pose proof (exp_ineq1 1 ltac:(lra)) as H1.
    pose proof (pow_lt 2 n ltac:(lra)) as H2.
    nra.
Qed.

Lemma exp_INR_upper (n : nat) : (exp (INR n) <= 3 ^ n)%R.
Proof.
  induction n as [|n IH].
  - simpl. rewrite exp_0. lra.
  - rewrite S_INR, exp_plus. change (3 ^ S n)%R with (3 * 3 ^ n)%R.
    pose proof exp_le_3 as H1.
    pose proof (exp_pos (INR n)) as H2. pose proof (exp_pos 1) as H3.
    nra.
Qed.

Lemma float_max_lower : (2 ^ 1023 <= float_max)%R.
Proof.
  unfold float_max.
  pose proof (pow_lt 2 1023 ltac:(lra)) as H1.
  pose proof (pow_R1_Rle 2 52 ltac:(lra)) as H2.
  pose proof (Rinv_le_contravar 1 (2 ^ 52) ltac:(lra) H2) as H3.
  rewrite Rinv_1 in H3.
  generalize dependent (2 ^ 1023)%R. generalize dependent (/ 2 ^ 52)%R.
  intros. nra.
Qed.

Lemma float_max_upper : (float_max < 2 ^ 1024)%R.
Proof.
  unfold float_max. change (2 ^ 1024)%R with (2 * 2 ^ 1023)%R.
  pose proof (pow_lt 2 1023 ltac:(lra)) as H1.
  pose proof (pow_lt 2 52 ltac:(lra)) as H2.
  apply Rinv_0_lt_compat in H2.
  generalize dependent (2 ^ 1023)%R. generalize dependent (/ 2 ^ 52)%R.
  intros. nra.
Qed.

(** A result of [exp] between the bounds of a small exponent is finite. *)
Lemma np_exp_finite (x : R) (n : nat) :
  (x <= INR n)%R -> (2 * n <= 1023)%nat -> np_exp x = Finite (exp x).
Proof.
  intros Hx Hn. unfold np_exp. destruct (Rle_dec (exp x) float_max) as [|Hgt].
  - reflexivity.
  - exfalso. apply Hgt.
    apply Rle_trans with (exp (INR n)).
    { destruct Hx as [Hx| ->]; [left; apply exp_increasing; assumption|right; reflexivity]. }
    apply Rle_trans with (3 ^ n)%R; [apply exp_INR_upper|].
    apply Rle_trans with (4 ^ n)%R; [apply pow_incr; lra|].
    apply Rle_trans with (2 ^ 1023)%R; [|apply float_max_lower].
    replace 4%R with (2 ^ 2)%R by (simpl; lra). rewrite <- pow_mult.
    apply Rle_pow; [lra|lia].
Qed.

(** A result of [exp] above [2 ^ 1024] overflows to infinity. *)
Lemma np_exp_overflow (x : R) : (1024 <= x)%R -> np_exp x = PosInf.
Proof.
  intros Hx. unfold np_exp. destruct (Rle_dec (exp x) float_max) as [Hle|].
  - exfalso.
    pose proof float_max_upper as Hu.
    pose proof (exp_INR_lower 1024) as Hl.
    assert (exp (INR 1024) <= exp x)%R as Hmono.
    { rewrite INR_IZR_INZ. change (Z.of_nat 1024) with 1024.
      destruct Hx as [Hx| <-]; [left; apply exp_increasing; assumption|right; reflexivity]. }
    generalize dependent (2 ^ 1024)%R. intros. lra.
  - reflexivity.
Qed.

Lemma range_down_empty (fuel : nat) (i stop step : Z) :
  i <= stop -> range_down fuel i stop step = [].
Proof.
  intros H. destruct fuel as [|fuel]; simpl; [reflexivity|].
  destruct (Z.ltb_spec stop i); [lia|reflexivity].
Qed.

Section AggregationProperties.

Variables tokenizer_t model_t : Type.
Variable tokenizer_call : tokenizer_t -> list string -> Z -> BatchEncoding.
Variable model_loss : model_t -> BatchEncoding -> R.

(** The running totals after the loop are the initial totals plus the two
    sums over the per-batch results. *)
Lemma loop_totals (model : model_t) (tokenizer : tokenizer_t)
    (data : list (gmap string pyval)) (batch_size max_length : Z) (starts : list Z) :
  forall totals : R * Z,
  fold_left (loop_body tokenizer_t model_t tokenizer_call model_loss
               model tokenizer data batch_size max_length) starts totals =
  let rs := map (fun i => score_batch tokenizer_t model_t tokenizer_call model_loss
                            model tokenizer max_length
                            (py_slice data i (i + batch_size))) starts in
  ((fst totals + weighted_loss_sum rs)%R, snd totals + token_sum rs).
Proof.
  induction starts as [|i starts IH]; intros [total_loss total_tokens]; simpl.
  - f_equal; [lra|lia].
  - rewrite IH. simpl. f_equal; [lra|lia].
Qed.

(** A pass finalizes the sums of its per-batch results. *)
Lemma compute_perplexity_scores (model : model_t) (tokenizer : tokenizer_t)
    (data : list (gmap string pyval)) (batch_size max_length : Z) (rs : list (R * Z)) :
  batch_scores tokenizer_t model_t tokenizer_call model_loss
    model tokenizer data batch_size max_length = Ok rs ->
  compute_perplexity tokenizer_t model_t tokenizer_call model_loss
    model tokenizer data batch_size max_length =
  finalize (weighted_loss_sum rs, token_sum rs).
Proof.
  unfold batch_scores, batches, compute_perplexity.
  destruct (py_range 0 (Z.of_nat (length data)) batch_size) as [starts|e]; simpl;
    [|discriminate].
  intros [= <-]. rewrite loop_totals. simpl.
  rewrite map_map, Rplus_0_l. reflexivity.
Qed.

Lemma token_sum_pos (rs : list (R * Z)) :
  rs <> [] -> Forall (fun r => 0 < snd r) rs -> 0 < token_sum rs.
Proof.
  intros Hne Hall. destruct Hall as [|r rs Hr Hrs]; [congruence|].
  simpl. assert (0 <= token_sum rs); [|lia].
  clear Hne Hr. induction Hrs as [|r' rs' Hr' _ IH]; simpl; lia.
Qed.

Lemma finalize_nonzero (total_loss : R) (total_tokens : Z) :
  total_tokens <> 0 ->
  finalize (total_loss, total_tokens) = Ok (np_exp (total_loss / IZR total_tokens)).
Proof.
  intros H. unfold finalize, py_truediv. simpl.
  destruct (Z.eqb_spec total_tokens 0); [contradiction|]. reflexivity.
Qed.

Lemma finalize_zero (total_loss : R) :
  finalize (total_loss, 0) = Raise ZeroDivisionError.
Proof. reflexivity. Qed.

(** C1. When a pass has at least one batch and every batch reports a positive
    token count, [compute_perplexity] returns the exponential of the sum of
    [loss * token_count] divided by the sum of the token counts; the value is
    the finite real exponential whenever that is within the floating range.
    For the per-batch results (2.0, 10) and (4.0, 30) the value is [e^3.5],
    hence within a relative 1e-6 of it, and for the single result (0.0, 5) it
    is exactly 1. *)
Theorem C1_token_weighted_perplexity (model : model_t) (tokenizer : tokenizer_t)
    (data : list (gmap string pyval)) (batch_size max_length : Z) (rs : list (R * Z)) :
  batch_scores tokenizer_t model_t tokenizer_call model_loss
    model tokenizer data batch_size max_length = Ok rs ->
  rs <> [] ->
  Forall (fun r => 0 < snd r) rs ->
  let ppl := compute_perplexity tokenizer_t model_t tokenizer_call model_loss
               model tokenizer data batch_size max_length in
  let avg_loss := (weighted_loss_sum rs / IZR (token_sum rs))%R in
  ppl = Ok (np_exp avg_loss)
  /\ ((exp avg_loss <= float_max)%R -> ppl = Ok (Finite (exp avg_loss)))
  /\ (rs = [(2%R, 10); (4%R, 30)] ->
      exists p : R, ppl = Ok (Finite p) /\ p = exp (7 / 2)
                    /\ (Rabs (p - exp (7 / 2)) <= / 1000000 * exp (7 / 2))%R)
  /\ (rs = [(0%R, 5)] -> ppl = Ok (Finite 1)).
Proof.
  intros Hrs Hne Hpos ppl avg_loss.
  assert (ppl = Ok (np_exp avg_loss)) as Hppl.
  { unfold ppl. rewrite (compute_perplexity_scores _ _ _ _ _ _ Hrs).
    apply finalize_nonzero. pose proof (token_sum_pos rs Hne Hpos). lia. }
  split; [exact Hppl|]. split; [|split].
  - intros Hfin. rewrite Hppl. unfold np_exp.
    destruct (Rle_dec (exp avg_loss) float_max); [reflexivity|contradiction].
  - intros ->. exists (exp (7 / 2)). split; [|split].
    + rewrite Hppl. f_equal.
      assert (avg_loss = 7 / 2)%R as ->.
      { unfold avg_loss. change (token_sum [(2%R, 10); (4%R, 30)]) with 40.
        simpl. lra. }
      apply (np_exp_finite _ 4); [simpl; lra|lia].
    + reflexivity.
    + rewrite Rminus_diag, Rabs_R0. pose proof (exp_pos (7 / 2)). lra.
  - intros ->. rewrite Hppl. f_equal.
    assert (avg_loss = 0)%R as ->.
    { unfold avg_loss. change (token_sum [(0%R, 5)]) with 5. simpl. lra. }
    rewrite (np_exp_finite _ 0); [|simpl; lra|lia]. rewrite exp_0. reflexivity.
Qed.

(** C3. Finalizing totals with a zero token count raises
    [ZeroDivisionError]. On an empty record list [compute_perplexity] raises
    for every batch size ([ValueError] from [range] when the batch size is
    zero, [ZeroDivisionError] otherwise), and so it does on any record list
    when a negative batch size makes the loop visit no batch; no number is
    returned. *)
Theorem C3_empty_pass_raises (model : model_t) (tokenizer : tokenizer_t)
    (data : list (gmap string pyval)) (batch_size max_length : Z)
    (total_loss : R) (p : positive) :
  finalize (total_loss, 0) = Raise ZeroDivisionError
  /\ compute_perplexity tokenizer_t model_t tokenizer_call model_loss
       model tokenizer [] batch_size max_length =
     Raise (if batch_size =? 0 then ValueError else ZeroDivisionError)
  /\ compute_perplexity tokenizer_t model_t tokenizer_call model_loss
       model tokenizer data (Z.neg p) max_length = Raise ZeroDivisionError.
Proof.
  split; [reflexivity|]. split.
  - unfold compute_perplexity, py_range. simpl.
    destruct (Z.eqb_spec batch_size 0); [reflexivity|].
    destruct (Z.ltb_spec 0 batch_size); simpl.
    + reflexivity.
    + replace (Z.to_nat (0 - 0)) with 0%nat by lia. reflexivity.
  - unfold compute_perplexity, py_range.
    change (Z.neg p =? 0) with false. change (0 <? Z.neg p) with false.
    cbv iota. rewrite range_down_empty by lia. reflexivity.
Qed.

End AggregationProperties.

Lemma two_emails_scores :
  batch_scores unit stub_model char_tokenizer_call stub_model_loss
    two_loss_model tt two_emails 1 512 = Ok [(2%R, 10); (4%R, 30)].
Proof. vm_compute. reflexivity. Qed.

Lemma C1_token_weighted_perplexity_witness :
  batch_scores unit stub_model char_tokenizer_call stub_model_loss
    two_loss_model tt two_emails 1 512 = Ok [(2%R, 10); (4%R, 30)]
  /\ compute_perplexity unit stub_model char_tokenizer_call stub_model_loss
       two_loss_model tt two_emails 1 512 = Ok (Finite (exp (7 / 2))).
Proof.
  split; [exact two_emails_scores|].
  destruct (C1_token_weighted_perplexity unit stub_model char_tokenizer_call
              stub_model_loss two_loss_model tt two_emails 1 512
              [(2%R, 10); (4%R, 30)] two_emails_scores)
    as (_ & _ & Hex & _).
  - discriminate.
  - repeat constructor; simpl; lia.
  - destruct (Hex eq_refl) as (p & Hp & -> & _). exact Hp.
Defined.

(** On binary64 the average loss of the two examples is exactly 3.5 and
    exactly 0, as in the idealised arithmetic. *)
Example binary64_two_batches :
  binary64_avg_loss [(binary64_of_int 2, 10); (binary64_of_int 4, 30)] =
    PrimFloat.div (binary64_of_int 7) (binary64_of_int 2).
Proof. vm_compute. reflexivity. Qed.

Example binary64_single_batch :
  binary64_avg_loss [(binary64_of_int 0, 5)] = binary64_of_int 0.
Proof. vm_compute. reflexivity. Qed.

(** ** Overflow of the exponential *)

(** C7, as the code has it. When the exponential of the token-weighted
    average loss exceeds the largest finite float, [compute_perplexity] raises
    nothing: it returns positive infinity as the perplexity. *)
Theorem C7_overflow_returns_infinity (tokenizer_t model_t : Type)
    (tokenizer_call : tokenizer_t -> list string -> Z -> BatchEncoding)
    (model_loss : model_t -> BatchEncoding -> R)
    (model : model_t) (tokenizer : tokenizer_t)
    (data : list (gmap string pyval)) (batch_size max_length : Z) (rs : list (R * Z)) :
  batch_scores tokenizer_t model_t tokenizer_call model_loss
    model tokenizer data batch_size max_length = Ok rs ->
  token_sum rs <> 0 ->
  (float_max < exp (weighted_loss_sum rs / IZR (token_sum rs)))%R ->
  compute_perplexity tokenizer_t model_t tokenizer_call model_loss
    model tokenizer data batch_size max_length = Ok PosInf.
Proof.
  intros Hrs Hne Hover.
  rewrite (compute_perplexity_scores _ _ _ _ _ _ _ _ _ _ Hrs).
  rewrite finalize_nonzero by assumption. unfold np_exp.
  destruct (Rle_dec _ float_max) as [Hle|]; [lra|reflexivity].
Qed.

Lemma huge_loss_scores :
  batch_scores unit stub_model char_tokenizer_call stub_model_loss
    (constant_model 1024) tt [email "hi" ""] 8 512 = Ok [(1024%R, 10)].
Proof. vm_compute. reflexivity. Qed.

Lemma huge_loss_overflows :
  (float_max <
     exp (weighted_loss_sum [(1024, 10%Z)] / IZR (token_sum [(1024, 10%Z)])))%R.
Proof.
  change (token_sum [(1024%R, 10)]) with 10. simpl.
  replace ((1024 * 10 + 0) / 10)%R with (INR 1024).
  - pose proof float_max_upper. pose proof (exp_INR_lower 1024).
    generalize dependent (2 ^ 1024)%R. intros. lra.
  - rewrite INR_IZR_INZ. change (Z.of_nat 1024) with 1024. lra.
Qed.

Lemma C7_overflow_returns_infinity_witness :
  compute_perplexity unit stub_model char_tokenizer_call stub_model_loss
    (constant_model 1024) tt [email "hi" ""] 8 512 = Ok PosInf.
Proof.
  apply (C7_overflow_returns_infinity unit stub_model char_tokenizer_call
           stub_model_loss (constant_model 1024) tt [email "hi" ""] 8 512
           [(1024%R, 10)] huge_loss_scores).
  - vm_compute. discriminate.
  - exact huge_loss_overflows.
Defined.

(** ** Token count of a batch *)

Lemma sum_app (l1 l2 : list Z) :
  foldr Z.add 0 (l1 ++ l2) = foldr Z.add 0 l1 + foldr Z.add 0 l2.
Proof. induction l1 as [|x l1 IH]; simpl; lia. Qed.

Lemma tensor_sum_cons (row : list Z) (rows : list (list Z)) :
  tensor_sum (row :: rows) = foldr Z.add 0 row + tensor_sum rows.
Proof. unfold tensor_sum. simpl. apply sum_app. Qed.

(** The mask total splits into the first entry of every row and the rest. *)
Lemma mask_sum_split (mask : list (list Z)) :
  tensor_sum mask = loss_term_tokens mask + leading_tokens mask.
Proof.
  induction mask as [|row mask IH]; [reflexivity|].
  unfold loss_term_tokens, leading_tokens in *.
  rewrite !map_cons, !tensor_sum_cons. simpl foldr at 3.
  destruct row as [|x row]; simpl; lia.
Qed.

(** C6, as the code has it. The token count that weights a batch's mean loss
    is the sum of the attention mask, the number of all non-padding positions
    of the batch. It is the number of non-padding tokens that have a
    predecessor in their row (the targets of the shifted loss) plus the
    number of rows whose first position is a token. *)
Theorem C6_weight_is_mask_sum (tokenizer_t model_t : Type)
    (tokenizer_call : tokenizer_t -> list string -> Z -> BatchEncoding)
    (model_loss : model_t -> BatchEncoding -> R)
    (model : model_t) (tokenizer : tokenizer_t) (max_length : Z)
    (batch : list (gmap string pyval)) :
  let encodings := tokenizer_call tokenizer (map render batch) max_length in
  let num_tokens := snd (score_batch tokenizer_t model_t tokenizer_call model_loss
                           model tokenizer max_length batch) in
  num_tokens = tensor_sum (attention_mask encodings)
  /\ num_tokens = loss_term_tokens (attention_mask encodings)
                  + leading_tokens (attention_mask encodings).
Proof.
  intros encodings num_tokens. split; [reflexivity|].
  unfold num_tokens, score_batch. simpl. apply mask_sum_split.
Qed.

(** A batch of one record of 10 tokens: the weight is 10, while 9 tokens are
    targets of the shifted loss. *)
Lemma C6_weight_counterexample :
  let batch := [email "hi" ""] in
  let encodings := char_tokenizer_call tt (map render batch) 512 in
  attention_mask encodings = [[1; 1; 1; 1; 1; 1; 1; 1; 1; 1]]
  /\ snd (score_batch unit stub_model char_tokenizer_call stub_model_loss
            (constant_model 2) tt 512 batch) = 10
  /\ loss_term_tokens (attention_mask encodings) = 9.
Proof. vm_compute. repeat split; reflexivity. Qed.

(** ** Relative improvement *)

Lemma improvement_percent_finite (base_ppl finetuned_ppl : R) :
  base_ppl <> 0%R ->
  improvement_percent (Finite base_ppl) (Finite finetuned_ppl) =
    Finite ((base_ppl - finetuned_ppl) / base_ppl * 100).
Proof.
  intros H. unfold improvement_percent. simpl.
  destruct (Req_dec_T base_ppl 0); [contradiction|]. reflexivity.
Qed.

(** C4. For positive finite perplexities the reported improvement is
    [(base - finetuned) / base * 100]; it is negative exactly when the
    fine-tuned perplexity is the larger. Base 40 and fine-tuned 30 give 25;
    base 30 and fine-tuned 40 give [-100/3], within 0.01 of -33.33. *)
Theorem C4_relative_improvement (base_ppl finetuned_ppl : R) :
  (0 < base_ppl)%R -> (0 < finetuned_ppl)%R ->
  improvement_percent (Finite base_ppl) (Finite finetuned_ppl) =
    Finite ((base_ppl - finetuned_ppl) / base_ppl * 100)
  /\ (((base_ppl - finetuned_ppl) / base_ppl * 100 < 0)%R <->
      (base_ppl < finetuned_ppl)%R)
  /\ improvement_percent (Finite 40) (Finite 30) = Finite 25
  /\ (exists x : R,
        improvement_percent (Finite 30) (Finite 40) = Finite x
        /\ (x < 0)%R /\ (Rabs (x - - (3333 / 100)) <= / 100)%R).
Proof.
  intros Hb Hf. split; [apply improvement_percent_finite; lra|]. split; [|split].
  - assert (0 < / base_ppl)%R as Hinv by (apply Rinv_0_lt_compat; assumption).
    unfold Rdiv. split; intros H.
    + apply Rnot_le_lt. intros Hle.
      assert (0 <= (base_ppl - finetuned_ppl) * / base_ppl)%R by
        (apply Rmult_le_pos; lra).
      lra.
    + assert ((finetuned_ppl - base_ppl) * / base_ppl > 0)%R by
        (apply Rmult_lt_0_compat; lra).
      lra.
  - rewrite improvement_percent_finite by lra. f_equal. lra.
  - exists (- (100 / 3))%R. split; [|split].
    + rewrite improvement_percent_finite by lra. f_equal. lra.
    + lra.
    + apply Rabs_le. lra.
Qed.

Lemma C4_relative_improvement_witness :
  improvement_percent (Finite 50) (Finite 45) = Finite ((50 - 45) / 50 * 100).
Proof.
  apply (C4_relative_improvement 50 45); lra.
Defined.

(** ** The run of [main] *)

Section RunProperties.

Variables tokenizer_t model_t : Type.
Variable tokenizer_call : tokenizer_t -> list string -> Z -> BatchEncoding.
Variable model_loss : model_t -> BatchEncoding -> R.
Variable tokenizer_from_pretrained : string -> tokenizer_t.
Variable model_from_pretrained : string -> model_t.
Variable load_test_data : string -> list (gmap string pyval).
Variable cuda_is_available : bool.

Local Abbreviation emit' := (emit tokenizer_t cuda_is_available).
Local Abbreviation trace' := (trace_from tokenizer_t cuda_is_available).

Local Abbreviation run_main args :=
  (main tokenizer_t model_t tokenizer_call model_loss tokenizer_from_pretrained
     model_from_pretrained load_test_data cuda_is_available args).

Local Abbreviation pass args path :=
  (compute_perplexity tokenizer_t model_t tokenizer_call model_loss
     (model_from_pretrained path)
     (tokenizer_from_pretrained (arg_base_model args))
     (load_test_data (arg_test_data args))
     (arg_batch_size args) (arg_max_length args)).

(** The world after a sequence of events. *)
Lemma bind_emit {B : Type} (e : event tokenizer_t) (k : unit -> run tokenizer_t B)
    (w : world tokenizer_t) :
  (emit' e ≫= k) w = k tt (snd (emit' e w)).
Proof. reflexivity. Qed.

Lemma bind_lift_ok {A B : Type} (a : A) (k : A -> run tokenizer_t B)
    (w : world tokenizer_t) :
  (lift tokenizer_t (Ok a) ≫= k) w = k a w.
Proof. reflexivity. Qed.

Lemma bind_lift_raise {A B : Type} (e : exn) (k : A -> run tokenizer_t B)
    (w : world tokenizer_t) :
  (lift tokenizer_t (Raise e : result A) ≫= k) w = (Raise e, w).
Proof. reflexivity. Qed.

Lemma emit_history (e : event tokenizer_t) (w : world tokenizer_t) :
  history _ (snd (emit' e w)) = history _ w ++ trace' (device _ w) [e]
  /\ device _ (snd (emit' e w)) = device_step _ cuda_is_available e (device _ w).
Proof. split; reflexivity. Qed.

Lemma trace_from_app (d : device_state) (es1 es2 : list (event tokenizer_t)) :
  trace' d (es1 ++ es2) =
    trace' d es1 ++ trace' (foldl (fun d e => device_step _ cuda_is_available e d) d es1) es2.
Proof.
  revert d. induction es1 as [|e es1 IH]; intros d; simpl; [reflexivity|].
  rewrite IH. reflexivity.
Qed.

Local Abbreviation emit_events :=
  (foldl (fun (w : world tokenizer_t) (e : event tokenizer_t) => snd (emit' e w))).

Lemma emit_events_spec (es : list (event tokenizer_t)) : forall w : world tokenizer_t,
  history _ (emit_events w es) = history _ w ++ trace' (device _ w) es
  /\ device _ (emit_events w es) =
       foldl (fun d e => device_step _ cuda_is_available e d) (device _ w) es.
Proof.
  induction es as [|e es IH]; intros w; cbn [foldl trace_from].
  - rewrite app_nil_r. split; reflexivity.
  - destruct (IH (snd (emit' e w))) as [Hh Hd]. rewrite Hh, Hd.
    destruct (emit_history e w) as [Hh1 Hd1]. rewrite Hh1, Hd1.
    cbn [trace_from]. rewrite <- app_assoc. split; reflexivity.
Qed.

(** The outcome of a run, by the outcome of its two passes. *)
Lemma main_run (args : Args) (w : world tokenizer_t) :
  run_main args w =
    let w1 := emit_events w
                (events_to_base_pass _ tokenizer_from_pretrained load_test_data
                   cuda_is_available args) in
    match pass args (arg_base_model args) with
    | Raise e => (Raise e, w1)
    | Ok base_ppl =>
        let w2 := emit_events w1
                    (events_to_finetuned_pass _ tokenizer_from_pretrained
                       load_test_data args base_ppl) in
        match pass args (arg_finetuned_model args) with
        | Raise e => (Raise e, w2)
        | Ok finetuned_ppl =>
            (Ok tt, emit_events w2 (events_to_end _ base_ppl finetuned_ppl))
        end
    end.
Proof.
  unfold main. cbv zeta. rewrite !bind_emit.
  destruct (pass args (arg_base_model args)) as [base_ppl|e].
  - rewrite bind_lift_ok, !bind_emit.
    destruct (pass args (arg_finetuned_model args)) as [finetuned_ppl|e].
    + rewrite bind_lift_ok, !bind_emit. reflexivity.
    + rewrite bind_lift_raise. reflexivity.
  - rewrite bind_lift_raise. reflexivity.
Qed.

Local Abbreviation final_history args :=
  (history tokenizer_t (snd (run_main args (initial_world tokenizer_t)))).

Local Abbreviation events1 args :=
  (events_to_base_pass _ tokenizer_from_pretrained load_test_data
     cuda_is_available args).

Local Abbreviation events2 args base_ppl :=
  (events_to_finetuned_pass _ tokenizer_from_pretrained load_test_data
     args base_ppl).

(** The history of a run from the initial world. *)
Lemma main_history (args : Args) :
  final_history args =
    trace' empty_device
      (events1 args ++
       match pass args (arg_base_model args) with
       | Raise _ => []
       | Ok base_ppl =>
           events2 args base_ppl ++
           match pass args (arg_finetuned_model args) with
           | Raise _ => []
           | Ok finetuned_ppl => events_to_end _ base_ppl finetuned_ppl
           end
       end).
Proof.
  rewrite main_run. cbv zeta.
  destruct (pass args (arg_base_model args)) as [base_ppl|e]; cbn [snd].
  - destruct (pass args (arg_finetuned_model args)) as [finetuned_ppl|e]; cbn [snd].
    + rewrite !(proj1 (emit_events_spec _ _)), !(proj2 (emit_events_spec _ _)).
      cbn [history device initial_world app].
      rewrite !trace_from_app, <- !app_assoc. reflexivity.
    + rewrite !(proj1 (emit_events_spec _ _)), !(proj2 (emit_events_spec _ _)).
      cbn [history device initial_world app].
      rewrite app_nil_r, !trace_from_app. reflexivity.
  - rewrite !(proj1 (emit_events_spec _ _)).
      cbn [history device initial_world app]. rewrite app_nil_r. reflexivity.
Qed.

Ltac scan_history i H :=
  cbn [lookup list_lookup] in H;
  first [ discriminate H
        | destruct i as [|i]; [ try discriminate H | scan_history i H ] ].

Ltac eval_history :=
  cbv [events_to_base_pass events_to_finetuned_pass events_to_end app
       trace_from device_step empty_device resident cached List.filter
       model_var_eqb negb].

(** C8. In every run, every event leaves at most one model on the device,
    counting the memory the allocator still caches for a deleted model. When
    the fine-tuned model is loaded, the deletion of the base model and the
    emptying of the cache have already happened, in that order, the event
    just before the load left the device empty, and the load leaves the
    fine-tuned model as the only resident one. *)
Theorem C8_base_released_before_finetuned_load (args : Args) :
  (forall (i : nat) (e : event tokenizer_t) (d : device_state),
      final_history args !! i = Some (e, d) ->
      (length (resident d) + length (cached d) <= 1)%nat)
  /\ (forall (i : nat) (path : string) (d : device_state),
      final_history args !! i = Some (EvLoadModel _ FinetunedModel path, d) ->
      d = {| resident := [FinetunedModel]; cached := [] |}
      /\ exists (j k : nat) (dj : device_state) (e' : event tokenizer_t),
          (j < k < i)%nat
          /\ final_history args !! j = Some (EvDel _ BaseModel, dj)
          /\ (BaseModel ∉ resident dj)
          /\ final_history args !! k = Some (EvEmptyCache _, empty_device)
          /\ final_history args !! (i - 1)%nat = Some (e', empty_device)).
Proof.
  rewrite main_history. split.
  - intros i e d H.
    apply (Forall_lookup_1 (fun x : event tokenizer_t * device_state =>
             (length (resident (snd x)) + length (cached (snd x)) <= 1)%nat)
             _ _ _) in H; [exact H|].
    destruct (pass args (arg_base_model args)) as [b|eb];
      [destruct (pass args (arg_finetuned_model args)) as [f|ef]|];
      destruct cuda_is_available; eval_history;
      repeat (constructor; [simpl; lia|]); constructor.
  - intros i path d.
    destruct (pass args (arg_base_model args)) as [b|eb];
      [destruct (pass args (arg_finetuned_model args)) as [f|ef]|];
      destruct cuda_is_available; eval_history; intros H;
      scan_history i H.
    all: cbn [lookup list_lookup] in H; injection H as <- <-; (split; [reflexivity|]).
    all: eexists 8%nat, 9%nat, _, _; cbn [lookup list_lookup Nat.sub].
    all: repeat split; try reflexivity; try lia.
    all: apply not_elem_of_nil.
Qed.

(** C9. Every call of [compute_perplexity] in a run receives the tokenizer
    loaded from the base model path, the loaded record list, and the batch
    size and maximum length of the command line; each perplexity the run
    prints is the result of the pass on these inputs with the model of its
    checkpoint; and any two calls of a run see the same batches and feed the
    same encodings to their models. *)
Theorem C9_same_inputs_both_passes (args : Args) :
  let tokenizer := tokenizer_from_pretrained (arg_base_model args) in
  let test_data := load_test_data (arg_test_data args) in
  (forall (i : nat) (v : model_var) (tok : tokenizer_t)
          (data : list (gmap string pyval)) (bs ml : Z) (d : device_state),
      final_history args !! i = Some (EvEvaluate _ v tok data bs ml, d) ->
      tok = tokenizer /\ data = test_data
      /\ bs = arg_batch_size args /\ ml = arg_max_length args)
  /\ (forall (i : nat) (v : model_var) (ppl : npfloat) (d : device_state),
      final_history args !! i = Some (EvPrint _ (MsgPerplexity v ppl), d) ->
      pass args (match v with
                 | BaseModel => arg_base_model args
                 | FinetunedModel => arg_finetuned_model args
                 end) = Ok ppl)
  /\ (forall (i j : nat) (v1 v2 : model_var) (tok1 tok2 : tokenizer_t)
          (data1 data2 : list (gmap string pyval)) (bs1 bs2 ml1 ml2 : Z)
          (d1 d2 : device_state),
      final_history args !! i = Some (EvEvaluate _ v1 tok1 data1 bs1 ml1, d1) ->
      final_history args !! j = Some (EvEvaluate _ v2 tok2 data2 bs2 ml2, d2) ->
      batches data1 bs1 = batches data2 bs2
      /\ batch_encodings _ tokenizer_call tok1 data1 bs1 ml1 =
         batch_encodings _ tokenizer_call tok2 data2 bs2 ml2).
Proof.
  intros tokenizer test_data.
  assert (forall (i : nat) (v : model_var) (tok : tokenizer_t)
            (data : list (gmap string pyval)) (bs ml : Z) (d : device_state),
            final_history args !! i = Some (EvEvaluate _ v tok data bs ml, d) ->
            tok = tokenizer /\ data = test_data
            /\ bs = arg_batch_size args /\ ml = arg_max_length args) as Hsame.
  { rewrite main_history. intros i v tok data bs ml d.
    destruct (pass args (arg_base_model args)) as [b|eb];
      [destruct (pass args (arg_finetuned_model args)) as [f|ef]|];
      destruct cuda_is_available; eval_history; intros H;
      scan_history i H.
    all: cbn [lookup list_lookup] in H; injection H as <- <- <- <- <- <-.
    all: repeat split; reflexivity. }
  split; [exact Hsame|]. split.
  - rewrite main_history. intros i v ppl d.
    destruct (pass args (arg_base_model args)) as [b|eb] eqn:Hb;
      [destruct (pass args (arg_finetuned_model args)) as [f|ef] eqn:Hf|];
      destruct cuda_is_available; eval_history; intros H;
      scan_history i H.
    all: cbn [lookup list_lookup] in H; injection H as <- <- <-.
    all: assumption.
  - intros i j v1 v2 tok1 tok2 data1 data2 bs1 bs2 ml1 ml2 d1 d2 Hi Hj.
    destruct (Hsame _ _ _ _ _ _ _ Hi) as (-> & -> & -> & ->).
    destruct (Hsame _ _ _ _ _ _ _ Hj) as (-> & -> & -> & ->).
    split; reflexivity.
Qed.

(** The improvement a successful run reports is [improvement_percent] of the
    two perplexities it printed. *)
Lemma main_reports_improvement (args : Args) (base_ppl finetuned_ppl : npfloat) :
  pass args (arg_base_model args) = Ok base_ppl ->
  pass args (arg_finetuned_model args) = Ok finetuned_ppl ->
  fst (run_main args (initial_world tokenizer_t)) = Ok tt
  /\ exists d : device_state,
       last (final_history args) =
         Some (EvPrint _ (MsgVerdict (np_ltb finetuned_ppl base_ppl)), d)
       /\ final_history args !! 14%nat =
            Some (EvPrint _ (MsgSummary base_ppl finetuned_ppl
                               (improvement_percent base_ppl finetuned_ppl)), d).
Proof.
  intros Hb Hf. split.
  - rewrite main_run. cbv zeta. rewrite Hb, Hf. reflexivity.
  - rewrite main_history, Hb, Hf. destruct cuda_is_available; eval_history;
      eexists; split; reflexivity.
Qed.

End RunProperties.

(** ** Overflow in a whole run *)

Lemma huge_loss_pass :
  compute_perplexity unit stub_model char_tokenizer_call stub_model_loss
    (constant_model 1024) tt [email "hi" ""] 8 512 = Ok PosInf.
Proof.
  rewrite (compute_perplexity_scores _ _ _ _ _ _ _ _ _ _ huge_loss_scores).
  change (token_sum [(1024%R, 10)]) with 10.
  rewrite finalize_nonzero by lia. f_equal.
  apply np_exp_overflow. simpl. lra.
Qed.

(** A run on one record whose batch has a mean loss of 1024 under both
    checkpoints: the average loss is 1024, its exponential is beyond the
    floating range, the pass returns infinity and not an error, and the run
    ends without an exception. *)
Lemma C7_overflow_counterexample :
  (float_max < exp (1024 * 10 / 10))%R
  /\ compute_perplexity unit stub_model char_tokenizer_call stub_model_loss
       (constant_model 1024) tt [email "hi" ""] 8 512 = Ok PosInf
  /\ fst (main unit stub_model char_tokenizer_call stub_model_loss
            (fun _ => tt) (fun _ => constant_model 1024)
            (fun _ => [email "hi" ""]) false stub_args (initial_world unit)) = Ok tt.
Proof.
  split; [|split].
  - pose proof huge_loss_overflows as H. simpl in H.
    change (token_sum [(1024%R, 10)]) with 10 in H.
    replace (1024 * 10 / 10)%R with ((1024 * 10 + 0) / 10)%R by lra. exact H.
  - exact huge_loss_pass.
  - rewrite main_run. cbv zeta. cbn [stub_args arg_base_model arg_finetuned_model
      arg_test_data arg_batch_size arg_max_length].
    rewrite huge_loss_pass. reflexivity.
Qed.

(** * Further properties *)

(** ** Batching: recursion, positions, composition *)

Lemma batches_step {A : Type} (data : list A) (batch_size : Z) :
  1 <= batch_size -> data <> [] ->
  exists rest : list (list A),
    batches (drop (Z.to_nat batch_size) data) batch_size = Ok rest
    /\ batches data batch_size = Ok (take (Z.to_nat batch_size) data :: rest).
Proof.
  intros Hbs Hne.
  assert (0 < Z.of_nat (length data)) as HN by (destruct data; [congruence|simpl; lia]).
  eexists. split; [apply batches_closed; assumption|].
  rewrite batches_closed by assumption. f_equal.
  rewrite (seqZ_cons 0) by (apply ceil_div_pos; lia).
  rewrite fmap_cons. f_equal.
  - rewrite py_slice_nonneg by lia. simpl. f_equal. lia.
  - assert (ceil_div (Z.of_nat (length (drop (Z.to_nat batch_size) data))) batch_size
            = Z.pred (ceil_div (Z.of_nat (length data)) batch_size)) as ->.
    { rewrite length_drop.
      destruct (Z_le_gt_dec batch_size (Z.of_nat (length data))) as [Hle|Hgt].
      - replace (Z.of_nat (length data - Z.to_nat batch_size))
          with (Z.of_nat (length data) - batch_size) by lia.
        rewrite ceil_div_step by lia. lia.
      - replace (Z.of_nat (length data - Z.to_nat batch_size)) with 0 by lia.
        pose proof (ceil_div_bounds (Z.of_nat (length data)) batch_size ltac:(lia)) as H1.
        pose proof (ceil_div_bounds 0 batch_size ltac:(lia)) as H0.
        assert (ceil_div 0 batch_size = 0) as -> by nia.
        assert (ceil_div (Z.of_nat (length data)) batch_size = 1) as -> by nia.
        reflexivity. }
    replace (Z.succ 0) with (1 + 0) by lia.
    rewrite <- fmap_add_seqZ, <- list_fmap_compose.
    apply list_fmap_ext. intros i k Hk.
    apply lookup_seqZ in Hk as [-> _]. simpl.
    rewrite !py_slice_nonneg by nia.
    rewrite drop_drop. f_equal; [lia|]. f_equal. nia.
Qed.

(** X1. For a non-empty list and a batch size of at least one, the first batch is
    the first [batch_size] records and the remaining batches are the batches
    of the rest of the list. *)
Theorem batches_unfold {A : Type} (data : list A) (batch_size : Z) :
  1 <= batch_size -> data <> [] ->
  exists rest : list (list A),
    batches (drop (Z.to_nat batch_size) data) batch_size = Ok rest
    /\ batches data batch_size = Ok (take (Z.to_nat batch_size) data :: rest).
Proof. apply batches_step. Qed.

Lemma batches_unfold_witness :
  exists rest : list (list Z),
    batches (drop (Z.to_nat 2) [10; 20; 30; 40; 50]) 2 = Ok rest
    /\ batches [10; 20; 30; 40; 50] 2 =
         Ok (take (Z.to_nat 2) [10; 20; 30; 40; 50] :: rest).
Proof.
  apply (batches_unfold [10; 20; 30; 40; 50] 2); [lia|discriminate].
Defined.

Lemma batches_nil {A : Type} (batch_size : Z) :
  1 <= batch_size -> batches (@nil A) batch_size = Ok [].
Proof.
  intros H. rewrite batches_closed by assumption.
  rewrite seqZ_nil by (apply ceil_div_nonpos; simpl; lia). reflexivity.
Qed.

(** X2. The record at index [k] of the input is scored in batch [k / batch_size],
    at position [k mod batch_size] of that batch. *)
Theorem batches_position {A : Type} (data : list A) (batch_size : Z) (k : nat) (x : A) :
  1 <= batch_size ->
  data !! k = Some x ->
  exists (bs : list (list A)) (b : list A),
    batches data batch_size = Ok bs
    /\ bs !! Z.to_nat (Z.of_nat k / batch_size) = Some b
    /\ b !! Z.to_nat (Z.of_nat k mod batch_size) = Some x.
Proof.
  intros Hbs Hk.
  pose proof (lookup_lt_Some _ _ _ Hk) as Hlt.
  pose proof (ceil_div_bounds (Z.of_nat (length data)) batch_size ltac:(lia)) as Hc.
  pose proof (Z.div_mod (Z.of_nat k) batch_size ltac:(lia)) as Hdm.
  pose proof (Z.mod_pos_bound (Z.of_nat k) batch_size ltac:(lia)) as Hm.
  assert (0 <= Z.of_nat k / batch_size) as Hq by (apply Z.div_pos; lia).
  eexists _, _. split; [apply batches_closed; assumption|]. split.
  - rewrite list_lookup_fmap.
    assert (seqZ 0 (ceil_div (Z.of_nat (length data)) batch_size)
              !! Z.to_nat (Z.of_nat k / batch_size) = Some (Z.of_nat k / batch_size)) as ->.
    { apply lookup_seqZ. split; [lia|]. nia. }
    reflexivity.
  - rewrite py_slice_nonneg by nia.
    rewrite lookup_take_lt by lia. rewrite lookup_drop.
    rewrite <- Hk. f_equal. nia.
Qed.

Lemma batches_position_witness :
  exists (bs : list (list Z)) (b : list Z),
    batches [10; 20; 30; 40; 50] 2 = Ok bs
    /\ bs !! Z.to_nat (Z.of_nat 3 / 2) = Some b
    /\ b !! Z.to_nat (Z.of_nat 3 mod 2) = Some 40.
Proof.
  apply (batches_position [10; 20; 30; 40; 50] 2 3 40); [lia|reflexivity].
Defined.

Lemma batches_app_multiple {A : Type} (l2 : list A) (batch_size : Z) (m : nat) :
  1 <= batch_size ->
  forall l1 : list A,
  length l1 = (m * Z.to_nat batch_size)%nat ->
  exists b1 b2 : list (list A),
    batches l1 batch_size = Ok b1
    /\ batches l2 batch_size = Ok b2
    /\ batches (l1 ++ l2) batch_size = Ok (b1 ++ b2).
Proof.
  intros Hbs. induction m as [|m IH]; intros l1 Hlen.
  - destruct l1; [|discriminate]. eexists [], _.
    split; [apply batches_nil; assumption|].
    split; [apply batches_closed; assumption|].
    simpl. apply batches_closed; assumption.
  - assert (l1 <> []) as Hne by (destruct l1; [simpl in Hlen; lia|discriminate]).
    destruct (batches_step l1 batch_size Hbs Hne) as (rest1 & Hrest1 & Hl1).
    destruct (IH (drop (Z.to_nat batch_size) l1)) as (b1 & b2 & Hb1 & Hb2 & Happ).
    { rewrite length_drop. lia. }
    assert (l1 ++ l2 <> []) as Hne' by (destruct l1; [congruence|discriminate]).
    destruct (batches_step (l1 ++ l2) batch_size Hbs Hne') as (rest & Hrest & Hl).
    rewrite drop_app_le in Hrest by lia. rewrite take_app_le in Hl by lia.
    rewrite Happ in Hrest. injection Hrest as <-.
    rewrite Hb1 in Hrest1. injection Hrest1 as <-.
    exists (take (Z.to_nat batch_size) l1 :: b1), b2.
    split; [assumption|]. split; [assumption|]. exact Hl.
Qed.

(** X3. Batching distributes over concatenation when the first list holds a
    whole number of batches: then the batches of [l1 ++ l2] are the batches of
    [l1] followed by the batches of [l2]. *)
Theorem batches_app {A : Type} (l1 l2 : list A) (batch_size : Z) :
  1 <= batch_size ->
  Z.of_nat (length l1) mod batch_size = 0 ->
  exists b1 b2 : list (list A),
    batches l1 batch_size = Ok b1
    /\ batches l2 batch_size = Ok b2
    /\ batches (l1 ++ l2) batch_size = Ok (b1 ++ b2).
Proof.
  intros Hbs Hmod.
  apply (batches_app_multiple l2 batch_size
           (Z.to_nat (Z.of_nat (length l1) / batch_size)) Hbs).
  pose proof (Z.div_mod (Z.of_nat (length l1)) batch_size ltac:(lia)) as Hdm.
  assert (0 <= Z.of_nat (length l1) / batch_size) by (apply Z.div_pos; lia).
  nia.
Qed.

Lemma batches_app_witness :
  exists b1 b2 : list (list Z),
    batches [10; 20; 30; 40] 2 = Ok b1
    /\ batches [50; 60; 70] 2 = Ok b2
    /\ batches ([10; 20; 30; 40] ++ [50; 60; 70]) 2 = Ok (b1 ++ b2).
Proof.
  apply (batches_app [10; 20; 30; 40] [50; 60; 70] 2); [lia|reflexivity].
Defined.

(** X4. A batch size that is at least the number of records puts all records of
    a non-empty list in one batch. *)
Theorem batches_single {A : Type} (data : list A) (batch_size : Z) :
  data <> [] ->
  Z.of_nat (length data) <= batch_size ->
  batches data batch_size = Ok [data].
Proof.
  intros Hne Hle.
  assert (1 <= batch_size) as Hbs by (destruct data; [congruence|simpl in Hle; lia]).
  destruct (batches_step data batch_size Hbs Hne) as (rest & Hrest & ->).
  rewrite drop_ge in Hrest by lia. rewrite batches_nil in Hrest by assumption.
  injection Hrest as <-. rewrite take_ge by lia. reflexivity.
Qed.

Lemma batches_single_witness : batches [10; 20; 30] 8 = Ok [[10; 20; 30]].
Proof. apply (batches_single [10; 20; 30] 8); [discriminate|simpl; lia]. Defined.

(** X5. With a batch size of one every record is a batch of its own. *)
Theorem batches_singletons {A : Type} (data : list A) :
  batches data 1 = Ok ((fun x => [x]) <$> data).
Proof.
  induction data as [|x data IH].
  - apply batches_nil. lia.
  - destruct (batches_step (x :: data) 1 ltac:(lia) ltac:(discriminate))
      as (rest & Hrest & ->).
    change (drop (Z.to_nat 1) (x :: data)) with data in Hrest.
    rewrite IH in Hrest. injection Hrest as <-. reflexivity.
Qed.

(** ** The evaluation pass: outcomes and bounds *)


Lemma token_sum_nonneg (rs : list (R * Z)) :
  Forall (fun r => 0 <= snd r) rs -> 0 <= token_sum rs.
Proof. induction 1 as [|r rs Hr _ IH]; simpl; lia. Qed.

Lemma weighted_loss_sum_perm (rs rs' : list (R * Z)) :
  rs ≡ₚ rs' -> weighted_loss_sum rs = weighted_loss_sum rs'.
Proof.
  induction 1 as [|r rs rs' _ IH|r1 r2 rs|rs1 rs2 rs3 _ IH1 _ IH2]; simpl.
  - reflexivity.
  - rewrite IH. reflexivity.
  - lra.
  - congruence.
Qed.

Lemma token_sum_perm (rs rs' : list (R * Z)) :
  rs ≡ₚ rs' -> token_sum rs = token_sum rs'.
Proof.
  induction 1 as [|r rs rs' _ IH|r1 r2 rs|rs1 rs2 rs3 _ IH1 _ IH2]; simpl.
  - reflexivity.
  - rewrite IH. reflexivity.
  - lia.
  - congruence.
Qed.

Lemma div_between (lo hi w t : R) :
  (0 < t)%R -> (lo * t <= w <= hi * t)%R -> (lo <= w / t <= hi)%R.
Proof.
  intros Ht [Hlo Hhi].
  assert (0 < / t)%R as Hinv by (apply Rinv_0_lt_compat; assumption).
  split.
  - replace lo with (lo * t * / t)%R by (field; lra).
    apply Rmult_le_compat_r; lra.
  - replace hi with (hi * t * / t)%R by (field; lra).
    apply Rmult_le_compat_r; lra.
Qed.


Section PassProperties.

Variables tokenizer_t model_t : Type.
Variable tokenizer_call : tokenizer_t -> list string -> Z -> BatchEncoding.
Variable model_loss : model_t -> BatchEncoding -> R.

Local Abbreviation perplexity_of model tokenizer data batch_size max_length :=
  (compute_perplexity tokenizer_t model_t tokenizer_call model_loss
     model tokenizer data batch_size max_length).

Local Abbreviation scores_of model tokenizer data batch_size max_length :=
  (batch_scores tokenizer_t model_t tokenizer_call model_loss
     model tokenizer data batch_size max_length).

Lemma compute_perplexity_bad_batch_size (model : model_t) (tokenizer : tokenizer_t)
    (data : list (gmap string pyval)) (batch_size max_length : Z) :
  batch_size <= 0 ->
  perplexity_of model tokenizer data batch_size max_length =
    Raise (if batch_size =? 0 then ValueError else ZeroDivisionError).
Proof.
  intros Hle. unfold compute_perplexity, py_range.
  destruct (Z.eqb_spec batch_size 0); [reflexivity|].
  destruct (Z.ltb_spec 0 batch_size); [lia|].
  cbn [rbind]. rewrite range_down_empty by lia. reflexivity.
Qed.

Lemma compute_perplexity_no_data (model : model_t) (tokenizer : tokenizer_t)
    (batch_size max_length : Z) :
  perplexity_of model tokenizer [] batch_size max_length =
    Raise (if batch_size =? 0 then ValueError else ZeroDivisionError).
Proof.
  unfold compute_perplexity, py_range. simpl.
  destruct (Z.eqb_spec batch_size 0); [reflexivity|].
  destruct (Z.ltb_spec 0 batch_size); simpl; [reflexivity|].
  replace (Z.to_nat (0 - 0)) with 0%nat by lia. reflexivity.
Qed.

Lemma batch_scores_defined (model : model_t) (tokenizer : tokenizer_t)
    (data : list (gmap string pyval)) (batch_size max_length : Z) :
  1 <= batch_size ->
  exists rs : list (R * Z),
    scores_of model tokenizer data batch_size max_length = Ok rs.
Proof.
  intros Hbs. unfold batch_scores. rewrite batches_closed by assumption.
  eexists. reflexivity.
Qed.

(** X6. A pass that returns a perplexity had a batch size of at least one and a
    non-empty record list, scored at least one batch with a non-zero total
    token count, and its value is the exponential of the token-weighted
    average loss. In every other case the pass raises. *)
Theorem compute_perplexity_returns (model : model_t) (tokenizer : tokenizer_t)
    (data : list (gmap string pyval)) (batch_size max_length : Z) (ppl : npfloat) :
  perplexity_of model tokenizer data batch_size max_length = Ok ppl ->
  1 <= batch_size
  /\ data <> []
  /\ exists rs : list (R * Z),
       scores_of model tokenizer data batch_size max_length = Ok rs
       /\ rs <> []
       /\ token_sum rs <> 0
       /\ ppl = np_exp (weighted_loss_sum rs / IZR (token_sum rs)).
Proof.
  intros Hok.
  destruct (Z_lt_le_dec batch_size 1) as [Hlt|Hbs].
  { rewrite compute_perplexity_bad_batch_size in Hok by lia. discriminate. }
  split; [assumption|]. split.
  { intros ->. rewrite compute_perplexity_no_data in Hok. discriminate. }
  destruct (batch_scores_defined model tokenizer data batch_size max_length Hbs)
    as [rs Hrs].
  exists rs. split; [assumption|].
  rewrite (compute_perplexity_scores _ _ _ _ _ _ _ _ _ _ Hrs) in Hok.
  destruct (Z.eq_dec (token_sum rs) 0) as [Hz|Hnz].
  { rewrite Hz in Hok. discriminate. }
  rewrite finalize_nonzero in Hok by assumption. injection Hok as <-.
  split; [|split; [assumption|reflexivity]].
  intros ->. apply Hnz. reflexivity.
Qed.



(** X9. With non-negative mean losses and positive token counts the returned
    perplexity is infinity or a finite number that is at least one; it is
    never [nan], negative infinity or a number below one. *)
Theorem compute_perplexity_at_least_one (model : model_t) (tokenizer : tokenizer_t)
    (data : list (gmap string pyval)) (batch_size max_length : Z)
    (rs : list (R * Z)) :
  scores_of model tokenizer data batch_size max_length = Ok rs ->
  rs <> [] ->
  Forall (fun r => 0 < snd r /\ (0 <= fst r)%R) rs ->
  perplexity_of model tokenizer data batch_size max_length = Ok PosInf
  \/ exists x : R,
       perplexity_of model tokenizer data batch_size max_length = Ok (Finite x)
       /\ (1 <= x)%R.
Proof.
  intros Hrs Hne Hall.
  assert (0 < token_sum rs) as HT.
  { apply token_sum_pos; [assumption|].
    eapply Forall_impl; [exact Hall|]. intros r [H _]. exact H. }
  assert (0 * IZR (token_sum rs) <= weighted_loss_sum rs)%R as Hlo.
  { clear Hrs Hne HT. induction Hall as [|[loss tokens] rs' [Ht Hl] _ IH]; simpl in *.
    - lra.
    - rewrite plus_IZR. apply IZR_lt in Ht. nra. }
  rewrite (compute_perplexity_scores _ _ _ _ _ _ _ _ _ _ Hrs).
  rewrite finalize_nonzero by lia. unfold np_exp.
  destruct (Rle_dec _ float_max); [right|left; reflexivity].
  eexists. split; [reflexivity|].
  rewrite <- exp_0.
  assert (0 <= weighted_loss_sum rs / IZR (token_sum rs))%R as [Hpos| <-].
  { apply IZR_lt in HT.
    apply (div_between 0 (weighted_loss_sum rs / IZR (token_sum rs))); [assumption|].
    split; [lra|]. right. field. lra. }
  - left. apply exp_increasing. assumption.
  - right. reflexivity.
Qed.

(** X10. The running totals after the loop do not depend on the order in which
    the batch start indices are visited (in the exact arithmetic of the
    model). *)
Theorem loop_order_irrelevant (model : model_t) (tokenizer : tokenizer_t)
    (data : list (gmap string pyval)) (batch_size max_length : Z)
    (starts starts' : list Z) (totals : R * Z) :
  starts ≡ₚ starts' ->
  fold_left (loop_body tokenizer_t model_t tokenizer_call model_loss
               model tokenizer data batch_size max_length) starts totals =
  fold_left (loop_body tokenizer_t model_t tokenizer_call model_loss
               model tokenizer data batch_size max_length) starts' totals.
Proof.
  intros Hperm. rewrite !loop_totals. cbv zeta.
  set (score := fun i : Z =>
         score_batch tokenizer_t model_t tokenizer_call model_loss
           model tokenizer max_length (py_slice data i (i + batch_size))).
  assert (map score starts ≡ₚ map score starts') as Hp
    by (apply fmap_Permutation; exact Hperm).
  rewrite (weighted_loss_sum_perm _ _ Hp), (token_sum_perm _ _ Hp). reflexivity.
Qed.

End PassProperties.

Lemma two_emails_pass :
  compute_perplexity unit stub_model char_tokenizer_call stub_model_loss
    two_loss_model tt two_emails 1 512 = Ok (Finite (exp (7 / 2))).
Proof.
  rewrite (compute_perplexity_scores _ _ _ _ _ _ _ _ _ _ two_emails_scores).
  change (token_sum [(2%R, 10); (4%R, 30)]) with 40.
  rewrite finalize_nonzero by lia. f_equal.
  replace (weighted_loss_sum [(2, 10%Z); (4, 30%Z)] / 40)%R with (7 / 2)%R
    by (simpl; lra).
  apply (np_exp_finite _ 4); [simpl; lra|lia].
Qed.


Lemma compute_perplexity_returns_witness :
  1 <= 1
  /\ two_emails <> []
  /\ exists rs : list (R * Z),
       batch_scores unit stub_model char_tokenizer_call stub_model_loss
         two_loss_model tt two_emails 1 512 = Ok rs
       /\ rs <> []
       /\ token_sum rs <> 0
       /\ Finite (exp (7 / 2)) = np_exp (weighted_loss_sum rs / IZR (token_sum rs)).
Proof.
  apply (compute_perplexity_returns unit stub_model char_tokenizer_call
           stub_model_loss two_loss_model tt two_emails 1 512).
  exact two_emails_pass.
Defined.



Lemma compute_perplexity_at_least_one_witness :
  compute_perplexity unit stub_model char_tokenizer_call stub_model_loss
    two_loss_model tt two_emails 1 512 = Ok PosInf
  \/ exists x : R,
       compute_perplexity unit stub_model char_tokenizer_call stub_model_loss
         two_loss_model tt two_emails 1 512 = Ok (Finite x)
       /\ (1 <= x)%R.
Proof.
  apply (compute_perplexity_at_least_one unit stub_model char_tokenizer_call
           stub_model_loss two_loss_model tt two_emails 1 512
           [(2%R, 10); (4%R, 30)] two_emails_scores).
  - discriminate.
  - repeat (constructor; [split; [simpl; lia|simpl; lra]|]). constructor.
Defined.

Lemma loop_order_irrelevant_witness :
  fold_left (loop_body unit stub_model char_tokenizer_call stub_model_loss
               two_loss_model tt two_emails 1 512) [0; 1] (0%R, 0) =
  fold_left (loop_body unit stub_model char_tokenizer_call stub_model_loss
               two_loss_model tt two_emails 1 512) [1; 0] (0%R, 0).
Proof.
  apply (loop_order_irrelevant unit stub_model char_tokenizer_call
           stub_model_loss two_loss_model tt two_emails 1 512).
  apply perm_swap.
Defined.

(** ** The report: improvement and verdict *)

Lemma np_exp_in_range (x : R) :
  (exp x <= float_max)%R -> np_exp x = Finite (exp x).
Proof.
  intros H. unfold np_exp. destruct (Rle_dec (exp x) float_max); [reflexivity|contradiction].
Qed.

Lemma np_exp_out_of_range (x : R) :
  (float_max < exp x)%R -> np_exp x = PosInf.
Proof.
  intros H. unfold np_exp. destruct (Rle_dec (exp x) float_max); [lra|reflexivity].
Qed.




(** X13. For positive finite perplexities the verdict of the last lines agrees
    with the sign of the reported improvement: the run reports an improved
    model exactly when the improvement is positive. Equal perplexities are
    reported as not improved. *)
Theorem verdict_matches_improvement (base_ppl finetuned_ppl : R) :
  (0 < base_ppl)%R -> (0 < finetuned_ppl)%R ->
  exists x : R,
    improvement_percent (Finite base_ppl) (Finite finetuned_ppl) = Finite x
    /\ (np_ltb (Finite finetuned_ppl) (Finite base_ppl) = true <-> (0 < x)%R)
    /\ np_ltb (Finite base_ppl) (Finite base_ppl) = false.
Proof.
  intros Hb Hf. eexists. split; [apply improvement_percent_finite; lra|].
  assert (0 < / base_ppl)%R as Hinv by (apply Rinv_0_lt_compat; assumption).
  split; [|simpl; destruct (Rlt_dec base_ppl base_ppl); [lra|reflexivity]].
  simpl. destruct (Rlt_dec finetuned_ppl base_ppl) as [Hlt|Hge]; split.
  - intros _. unfold Rdiv.
    assert (0 < (base_ppl - finetuned_ppl) * / base_ppl)%R
      by (apply Rmult_lt_0_compat; lra).
    lra.
  - reflexivity.
  - discriminate.
  - intros Hpos. exfalso. unfold Rdiv in Hpos.
    assert (0 <= (finetuned_ppl - base_ppl) * / base_ppl)%R
      by (apply Rmult_le_pos; lra).
    lra.
Qed.

Lemma verdict_matches_improvement_witness :
  exists x : R,
    improvement_percent (Finite 40) (Finite 30) = Finite x
    /\ (np_ltb (Finite 30) (Finite 40) = true <-> (0 < x)%R)
    /\ np_ltb (Finite 40) (Finite 40) = false.
Proof. apply (verdict_matches_improvement 40 30); lra. Defined.




(** X16. When the base perplexity has overflowed to infinity the reported
    improvement is [nan], whatever the fine-tuned perplexity is; when only
    the fine-tuned perplexity has overflowed, the improvement is negative
    infinity. *)
Theorem improvement_after_overflow (base_loss finetuned_loss : R) (ppl : npfloat) :
  ((float_max < exp base_loss)%R ->
   improvement_percent (np_exp base_loss) ppl = NaN)
  /\ ((exp base_loss <= float_max)%R -> (float_max < exp finetuned_loss)%R ->
      improvement_percent (np_exp base_loss) (np_exp finetuned_loss) = NegInf).
Proof.
  split.
  - intros Hb. rewrite np_exp_out_of_range by assumption.
    destruct ppl; reflexivity.
  - intros Hb Hf. rewrite np_exp_in_range, np_exp_out_of_range by assumption.
    pose proof (exp_pos base_loss) as Hpos.
    unfold improvement_percent, np_sub, np_div, np_mul, signed_inf, np_neg.
    destruct (Rlt_dec (exp base_loss) 0); [lra|].
    destruct (Rlt_dec 0 100); [reflexivity|lra].
Qed.

Lemma exp_1024_overflows : (float_max < exp 1024)%R.
Proof.
  pose proof float_max_upper as Hu. pose proof (exp_INR_lower 1024) as H.
  rewrite INR_IZR_INZ in H. change (Z.of_nat 1024) with 1024 in H.
  generalize dependent (2 ^ 1024)%R. intros. lra.
Qed.

Lemma exp_small_in_range (n : nat) :
  (2 * n <= 1023)%nat -> (exp (INR n) <= float_max)%R.
Proof.
  intros Hn. pose proof (np_exp_finite (INR n) n ltac:(lra) Hn) as H.
  unfold np_exp in H. destruct (Rle_dec (exp (INR n)) float_max); [assumption|discriminate].
Qed.


Lemma improvement_after_overflow_witness :
  improvement_percent (np_exp 1024) (Finite 5) = NaN
  /\ improvement_percent (np_exp (INR 3)) (np_exp 1024) = NegInf.
Proof.
  split.
  - apply (proj1 (improvement_after_overflow 1024 0 (Finite 5))).
    exact exp_1024_overflows.
  - apply (proj2 (improvement_after_overflow (INR 3) 1024 NaN)).
    + apply exp_small_in_range. lia.
    + exact exp_1024_overflows.
Defined.

(** ** The run: outcomes *)

Ltac eval_trace :=
  cbv [events_to_base_pass events_to_finetuned_pass events_to_end app
       trace_from device_step empty_device resident cached List.filter
       model_var_eqb negb foldl].

Ltac scan_trace i H :=
  cbn [lookup list_lookup] in H;
  first [ discriminate H
        | destruct i as [|i]; [ try discriminate H | scan_trace i H ] ].

Section RunOutcomes.

Variables tokenizer_t model_t : Type.
Variable tokenizer_call : tokenizer_t -> list string -> Z -> BatchEncoding.
Variable model_loss : model_t -> BatchEncoding -> R.
Variable tokenizer_from_pretrained : string -> tokenizer_t.
Variable model_from_pretrained : string -> model_t.
Variable load_test_data : string -> list (gmap string pyval).
Variable cuda_is_available : bool.

Local Abbreviation run_of args :=
  (main tokenizer_t model_t tokenizer_call model_loss tokenizer_from_pretrained
     model_from_pretrained load_test_data cuda_is_available args
     (initial_world tokenizer_t)).

Local Abbreviation pass_of args path :=
  (compute_perplexity tokenizer_t model_t tokenizer_call model_loss
     (model_from_pretrained path)
     (tokenizer_from_pretrained (arg_base_model args))
     (load_test_data (arg_test_data args))
     (arg_batch_size args) (arg_max_length args)).

Local Abbreviation trace_of :=
  (trace_from tokenizer_t cuda_is_available empty_device).

Local Abbreviation first_events args :=
  (events_to_base_pass _ tokenizer_from_pretrained load_test_data
     cuda_is_available args).

Local Abbreviation second_events args base_ppl :=
  (events_to_finetuned_pass _ tokenizer_from_pretrained load_test_data
     args base_ppl).

Local Abbreviation run_history args := (history tokenizer_t (snd (run_of args))).
Local Abbreviation run_device args := (device tokenizer_t (snd (run_of args))).

(** The device state at the end of a run. *)
Lemma main_final_device (args : Args) :
  run_device args =
    foldl (fun d e => device_step _ cuda_is_available e d) empty_device
      (first_events args ++
       match pass_of args (arg_base_model args) with
       | Raise _ => []
       | Ok base_ppl =>
           second_events args base_ppl ++
           match pass_of args (arg_finetuned_model args) with
           | Raise _ => []
           | Ok finetuned_ppl => events_to_end _ base_ppl finetuned_ppl
           end
       end).
Proof.
  rewrite main_run. cbv zeta.
  destruct (pass_of args (arg_base_model args)) as [base_ppl|e]; cbn [snd].
  - destruct (pass_of args (arg_finetuned_model args)) as [finetuned_ppl|e]; cbn [snd].
    + rewrite !(proj2 (emit_events_spec _ _ _ _)), !foldl_app. reflexivity.
    + rewrite !(proj2 (emit_events_spec _ _ _ _)), app_nil_r, !foldl_app. reflexivity.
  - rewrite !(proj2 (emit_events_spec _ _ _ _)), app_nil_r. reflexivity.
Qed.

(** X17. A run ends without an exception exactly when both passes return a
    perplexity. *)
Theorem main_succeeds_iff (args : Args) :
  fst (run_of args) = Ok tt <->
  exists base_ppl finetuned_ppl : npfloat,
    pass_of args (arg_base_model args) = Ok base_ppl
    /\ pass_of args (arg_finetuned_model args) = Ok finetuned_ppl.
Proof.
  rewrite main_run. cbv zeta.
  destruct (pass_of args (arg_base_model args)) as [b|e];
    [destruct (pass_of args (arg_finetuned_model args)) as [f|e]|]; cbn [fst].
  - split; [intros _; exists b, f; split; reflexivity|reflexivity].
  - split; [discriminate|intros (? & ? & _ & ?); discriminate].
  - split; [discriminate|intros (? & ? & ? & _); discriminate].
Qed.

(** X18. When the base pass raises, the run raises the same exception; its
    history ends with the call of the base pass, so the fine-tuned checkpoint
    is never loaded and nothing is deleted: the base model is still on the
    device. *)
Theorem main_base_failure (args : Args) (e : exn) :
  pass_of args (arg_base_model args) = Raise e ->
  fst (run_of args) = Raise e
  /\ run_history args = trace_of (first_events args)
  /\ length (run_history args) = 7%nat
  /\ run_device args = {| resident := [BaseModel]; cached := [] |}.
Proof.
  intros Hb. split; [|split; [|split]].
  - rewrite main_run. cbv zeta. rewrite Hb. reflexivity.
  - rewrite main_history, Hb, app_nil_r. reflexivity.
  - rewrite main_history, Hb. reflexivity.
  - rewrite main_final_device, Hb. reflexivity.
Qed.

(** X19. A batch size of zero or less, or an empty record list, is noticed only
    inside the base pass: the run raises ([ValueError] for a batch size of
    zero, [ZeroDivisionError] otherwise) after the tokenizer and the base
    model have been loaded, and the base model stays on the device. *)
Theorem main_bad_input (args : Args) :
  arg_batch_size args <= 0 \/ load_test_data (arg_test_data args) = [] ->
  fst (run_of args) =
    Raise (if arg_batch_size args =? 0 then ValueError else ZeroDivisionError)
  /\ (exists d : device_state,
        run_history args !! 5%nat =
          Some (EvLoadModel _ BaseModel (arg_base_model args), d))
  /\ run_device args = {| resident := [BaseModel]; cached := [] |}.
Proof.
  intros Hbad.
  assert (pass_of args (arg_base_model args) =
            Raise (if arg_batch_size args =? 0 then ValueError else ZeroDivisionError))
    as Hb.
  { destruct Hbad as [Hle|Hnil].
    - apply compute_perplexity_bad_batch_size. assumption.
    - rewrite Hnil. apply compute_perplexity_no_data. }
  split; [|split].
  - rewrite main_run. cbv zeta. rewrite Hb. reflexivity.
  - rewrite main_history, Hb. eexists. reflexivity.
  - rewrite main_final_device, Hb. reflexivity.
Qed.

(** X20. When both passes return, the run prints both perplexities, then the
    summary with [improvement_percent] of the two, then the verdict, in
    sixteen events; the fine-tuned model is never deleted and is the one left
    on the device. *)
Theorem main_success (args : Args) (base_ppl finetuned_ppl : npfloat) :
  pass_of args (arg_base_model args) = Ok base_ppl ->
  pass_of args (arg_finetuned_model args) = Ok finetuned_ppl ->
  fst (run_of args) = Ok tt
  /\ run_history args =
       trace_of (first_events args ++ second_events args base_ppl
                 ++ events_to_end _ base_ppl finetuned_ppl)
  /\ length (run_history args) = 16%nat
  /\ (exists d : device_state,
        run_history args !! 14%nat =
          Some (EvPrint _ (MsgSummary base_ppl finetuned_ppl
                             (improvement_percent base_ppl finetuned_ppl)), d)
        /\ run_history args !! 15%nat =
             Some (EvPrint _ (MsgVerdict (np_ltb finetuned_ppl base_ppl)), d))
  /\ (forall (i : nat) (d : device_state),
        run_history args !! i <> Some (EvDel _ FinetunedModel, d))
  /\ run_device args = {| resident := [FinetunedModel]; cached := [] |}.
Proof.
  intros Hb Hf. split; [|split; [|split; [|split; [|split]]]].
  - rewrite main_run. cbv zeta. rewrite Hb, Hf. reflexivity.
  - rewrite main_history, Hb, Hf. reflexivity.
  - rewrite main_history, Hb, Hf. reflexivity.
  - rewrite main_history, Hb, Hf.
    destruct cuda_is_available; eval_trace; eexists; split; reflexivity.
  - rewrite main_history, Hb, Hf. intros i d H.
    destruct cuda_is_available; revert H; eval_trace; intros H; scan_trace i H.
  - rewrite main_final_device, Hb, Hf.
    destruct cuda_is_available; reflexivity.
Qed.


End RunOutcomes.

Lemma no_data_pass (m : stub_model) :
  compute_perplexity unit stub_model char_tokenizer_call stub_model_loss
    m tt [] 8 512 = Raise ZeroDivisionError.
Proof. apply (compute_perplexity_no_data unit stub_model). Qed.

Lemma main_base_failure_witness :
  fst (main unit stub_model char_tokenizer_call stub_model_loss
         (fun _ => tt) (fun _ => two_loss_model) (fun _ => []) false
         stub_args (initial_world unit)) = Raise ZeroDivisionError
  /\ length (history unit
               (snd (main unit stub_model char_tokenizer_call stub_model_loss
                       (fun _ => tt) (fun _ => two_loss_model) (fun _ => []) false
                       stub_args (initial_world unit)))) = 7%nat.
Proof.
  destruct (main_base_failure unit stub_model char_tokenizer_call stub_model_loss
              (fun _ => tt) (fun _ => two_loss_model) (fun _ => []) false
              stub_args ZeroDivisionError (no_data_pass two_loss_model))
    as (H1 & _ & H2 & _).
  split; assumption.
Defined.

Lemma main_bad_input_witness :
  fst (main unit stub_model char_tokenizer_call stub_model_loss
         (fun _ => tt) (fun _ => two_loss_model) (fun _ => []) false
         stub_args (initial_world unit)) = Raise ZeroDivisionError.
Proof.
  apply (main_bad_input unit stub_model char_tokenizer_call stub_model_loss
           (fun _ => tt) (fun _ => two_loss_model) (fun _ => []) false stub_args).
  right. reflexivity.
Defined.

Lemma main_success_witness :
  fst (main unit stub_model char_tokenizer_call stub_model_loss
         (fun _ => tt) (fun _ => two_loss_model) (fun _ => two_emails) false
         {| arg_base_model := "base"; arg_finetuned_model := "adapter";
            arg_test_data := "test.jsonl"; arg_batch_size := 1;
            arg_max_length := 512 |} (initial_world unit)) = Ok tt.
Proof.
  apply (main_success unit stub_model char_tokenizer_call stub_model_loss
           (fun _ => tt) (fun _ => two_loss_model) (fun _ => two_emails) false
           {| arg_base_model := "base"; arg_finetuned_model := "adapter";
              arg_test_data := "test.jsonl"; arg_batch_size := 1;
              arg_max_length := 512 |}
           (Finite (exp (7 / 2))) (Finite (exp (7 / 2))));
    exact two_emails_pass.
Defined.

(** ** The passes fail together *)

Section PassesTogether.

Variables tokenizer_t model_t : Type.
Variable tokenizer_call : tokenizer_t -> list string -> Z -> BatchEncoding.
Variable model_loss : model_t -> BatchEncoding -> R.

Lemma loop_tokens_model_free (model model' : model_t) (tokenizer : tokenizer_t)
    (data : list (gmap string pyval)) (batch_size max_length : Z) (starts : list Z) :
  forall totals totals' : R * Z,
  snd totals = snd totals' ->
  snd (fold_left (loop_body tokenizer_t model_t tokenizer_call model_loss
                    model tokenizer data batch_size max_length) starts totals) =
  snd (fold_left (loop_body tokenizer_t model_t tokenizer_call model_loss
                    model' tokenizer data batch_size max_length) starts totals').
Proof.
  induction starts as [|i starts IH]; intros totals totals' Heq; simpl.
  - assumption.
  - apply IH. unfold loop_body, score_batch. simpl. rewrite Heq. reflexivity.
Qed.

(** X11. Whether a pass raises does not depend on the model: with the same
    tokenizer, records, batch size and maximum length, the pass of one model
    raises an exception exactly when the pass of any other model raises it.
    (Exceptions raised inside the library calls are outside the model.) *)
Theorem passes_raise_together (model model' : model_t) (tokenizer : tokenizer_t)
    (data : list (gmap string pyval)) (batch_size max_length : Z) (e : exn) :
  compute_perplexity tokenizer_t model_t tokenizer_call model_loss
    model tokenizer data batch_size max_length = Raise e <->
  compute_perplexity tokenizer_t model_t tokenizer_call model_loss
    model' tokenizer data batch_size max_length = Raise e.
Proof.
  unfold compute_perplexity.
  destruct (py_range 0 (Z.of_nat (length data)) batch_size) as [starts|e0];
    cbn [rbind]; [|reflexivity].
  pose proof (loop_tokens_model_free model model' tokenizer data batch_size
                max_length starts (0%R, 0) (0%R, 0) eq_refl) as Htok.
  unfold finalize, py_truediv. rewrite Htok.
  destruct (_ =? 0); cbn [rbind]; [reflexivity|].
  split; discriminate.
Qed.

End PassesTogether.

(** ** The text template is injective on single-line subjects *)

Lemma split_at_line_feed (s1 s2 b1 b2 : string) :
  Forall (fun c => c <> ascii_of_nat 10) (list_ascii_of_string s1) ->
  Forall (fun c => c <> ascii_of_nat 10) (list_ascii_of_string s2) ->
  s1 +:+ LF +:+ LF +:+ b1 = s2 +:+ LF +:+ LF +:+ b2 ->
  s1 = s2 /\ b1 = b2.
Proof.
  unfold LF. revert s2.
  induction s1 as [|c s1 IH]; intros [|c' s2] H1 H2 Heq; simpl in *.
  - simplify_eq. split; reflexivity.
  - inversion H2; simplify_eq.
  - inversion H1; simplify_eq.
  - inversion H1; inversion H2; simplify_eq.
    destruct (IH s2) as [-> ->]; try assumption. split; reflexivity.
Qed.

(** X22. When the subjects of two records hold no line feed (fields absent or
    strings), equal renderings come from equal subject and body texts: the
    two fields can be read back from the rendered text. *)
Theorem render_injective (d1 d2 : gmap string pyval)
    (subject1 body1 subject2 body2 : option string) :
  d1 !! "subject" = PyStr <$> subject1 -> d1 !! "body" = PyStr <$> body1 ->
  d2 !! "subject" = PyStr <$> subject2 -> d2 !! "body" = PyStr <$> body2 ->
  Forall (fun c => c <> ascii_of_nat 10)
         (list_ascii_of_string (default "" subject1)) ->
  Forall (fun c => c <> ascii_of_nat 10)
         (list_ascii_of_string (default "" subject2)) ->
  render d1 = render d2 ->
  default "" subject1 = default "" subject2
  /\ default "" body1 = default "" body2.
Proof.
  intros Hs1 Hb1 Hs2 Hb2 Hl1 Hl2 Heq. unfold render in Heq.
  rewrite (field_text _ _ _ Hs1), (field_text _ _ _ Hb1),
          (field_text _ _ _ Hs2), (field_text _ _ _ Hb2) in Heq.
  simpl in Heq. injection Heq as Heq.
  apply split_at_line_feed; assumption.
Qed.

Lemma render_injective_witness :
  default "" (Some "hi") = default "" (Some "hi")
  /\ default "" (Some "see you") = default "" (Some "see you").
Proof.
  apply (render_injective (email "hi" "see you") (email "hi" "see you")
           (Some "hi") (Some "see you") (Some "hi") (Some "see you"));
    try (vm_compute; reflexivity).
  - repeat constructor; discriminate.
  - repeat constructor; discriminate.
Defined.
